(** * raws-mcp: cache, failover coordinator, schema transformer and
      fire-weather calculators, embedded from the JavaScript sources.

    Conventions of the embedding.
    - A JavaScript number that is finite is a rational [Q]; the arithmetic
      the modelled code performs on such numbers (comparison, [Math.max],
      subtraction, [Math.round]) is exact on them.  [NaN] only appears as the
      result of a coercion and is the [None] of [JS.number].
    - [null] and [undefined] are kept apart ([JS.Null], [JS.Undefined]), since
      the sources distinguish [x == null], truthiness and numeric coercion.
    - Instants ([Date.now()], parsed timestamps) are integers of milliseconds.
    - [Math.exp], [Math.pow] and [Math.sqrt] are the ambient library: they
      are a parameter ([MathLib]) of the calculators that call them. *)

From Stdlib Require Import ZArith QArith Qround List String Bool Lia Lqa.
Import ListNotations.

Local Open Scope Z_scope.

(* ================================================================== *)
(** ** JavaScript values and the coercions the sources rely on *)

Module JS.

Inductive value : Type :=
| Undefined
| Null
| Num (q : Q).

(** A number after coercion; [None] is NaN. *)
Definition number : Type := option Q.

Definition ToNumber (v : value) : number :=
  match v with
  | Undefined => None
  | Null => Some 0%Q
  | Num q => Some q
  end.

(** [v == null] *)
Definition nullish (v : value) : bool :=
  match v with
  | Num _ => false
  | _ => true
  end.

(** ToBoolean *)
Definition truthy (v : value) : bool :=
  match v with
  | Num q => negb (Qeq_bool q 0)
  | _ => false
  end.

(** [a || b] *)
Definition or_else (a b : value) : value :=
  if truthy a then a else b.

Definition Qltb (a b : Q) : bool := negb (Qle_bool b a).

Definition nlt (a b : number) : bool :=
  match a, b with
  | Some x, Some y => Qltb x y
  | _, _ => false
  end.

Definition nle (a b : number) : bool :=
  match a, b with
  | Some x, Some y => Qle_bool x y
  | _, _ => false
  end.

(** [a < b], [a > b], [a <= b], [a >= b] on values *)
Definition lt (a b : value) : bool := nlt (ToNumber a) (ToNumber b).
Definition gt (a b : value) : bool := nlt (ToNumber b) (ToNumber a).
Definition le (a b : value) : bool := nle (ToNumber a) (ToNumber b).
Definition ge (a b : value) : bool := nle (ToNumber b) (ToNumber a).

(** [a - b] *)
Definition sub (a b : value) : number :=
  match ToNumber a, ToNumber b with
  | Some x, Some y => Some (x - y)%Q
  | _, _ => None
  end.

(** [Math.max(a, b)] *)
Definition Math_max (a b : value) : number :=
  match ToNumber a, ToNumber b with
  | Some x, Some y => Some (if Qle_bool x y then y else x)
  | _, _ => None
  end.

(** [Math.round]: nearest integer, ties towards +infinity. *)
Definition Math_round (q : Q) : Z := Qfloor (q + (1 # 2)).

(** [a % m] on numbers: the remainder has the sign of the dividend. *)
Definition Qtrunc (q : Q) : Z := Z.quot (Qnum q) (Zpos (Qden q)).

Definition rem (a m : Q) : Q := (a - m * inject_Z (Qtrunc (a / m)))%Q.

Definition of_Z (z : Z) : value := Num (inject_Z z).

End JS.

Import JS.

(** The functions of the [Math] object that are not exact on rationals.
    A model of them is a function of the number denoted, hence compatible
    with [Qeq]. *)
Class MathLib : Type := {
  Math_exp : Q -> Q;
  Math_pow : Q -> Q -> Q;
  Math_sqrt : Q -> Q;
  Math_exp_compat : forall x y, (x == y)%Q -> (Math_exp x == Math_exp y)%Q;
  Math_pow_compat :
    forall b b' e e', (b == b')%Q -> (e == e')%Q ->
                      (Math_pow b e == Math_pow b' e')%Q;
  Math_sqrt_compat :
    forall x y, (x == y)%Q -> (Math_sqrt x == Math_sqrt y)%Q
}.

(* ================================================================== *)
(** ** src/utils/units.js *)

Module Units.

Local Open Scope string_scope.

Definition directions : list string :=
  [ "N"; "NNE"; "NE"; "ENE";
    "E"; "ESE"; "SE"; "SSE";
    "S"; "SSW"; "SW"; "WSW";
    "W"; "WNW"; "NW"; "NNW" ].

(** [directions[index]] *)
Definition direction_at (index : Z) : string :=
  match index with
  | Zneg _ => "undefined"
  | _ => nth (Z.to_nat index) directions "undefined"
  end.

(** The normalisation [degrees % 360], then [+ 360] when negative. *)
Definition normalize_degrees (degrees : Q) : Q :=
  let d := JS.rem degrees 360 in
  if Qltb d 0 then (d + 360)%Q else d.

Definition cardinal_index (degrees : Q) : Z :=
  Z.rem
    (Math_round ((normalize_degrees degrees + (45 # 4)) / (45 # 2))%Q)
    16.

Definition degreesToCardinal (degrees : value) : string :=
  match degrees with
  | Num q => direction_at (cardinal_index q)
  | _ => "Unknown"
  end.

(** [String.prototype.toUpperCase] on ASCII text. *)
Definition upper_ascii (a : Ascii.ascii) : Ascii.ascii :=
  let n := Ascii.nat_of_ascii a in
  if (97 <=? n)%nat && (n <=? 122)%nat
  then Ascii.ascii_of_nat (n - 32) else a.

Fixpoint toUpperCase (s : string) : string :=
  match s with
  | EmptyString => EmptyString
  | String a s' => String (upper_ascii a) (toUpperCase s')
  end.

(** The table of [cardinalToDegrees]. *)
Definition cardinal_table : list (string * Q) :=
  [ ("N", 0%Q); ("NNE", 22.5%Q); ("NE", 45%Q); ("ENE", 67.5%Q);
    ("E", 90%Q); ("ESE", 112.5%Q); ("SE", 135%Q); ("SSE", 157.5%Q);
    ("S", 180%Q); ("SSW", 202.5%Q); ("SW", 225%Q); ("WSW", 247.5%Q);
    ("W", 270%Q); ("WNW", 292.5%Q); ("NW", 315%Q); ("NNW", 337.5%Q) ].

Fixpoint table_lookup (key : string) (t : list (string * Q)) : option Q :=
  match t with
  | [] => None
  | (k, v) :: t' => if String.eqb k key then Some v else table_lookup key t'
  end.

(** [cardinalToDegrees(cardinal)] on ASCII text; [None] is [null]. *)
Definition cardinalToDegrees (cardinal : string) : option Q :=
  table_lookup (toUpperCase cardinal) cardinal_table.

(** [round(value, decimals)] for the two uses in the sources. *)
Definition round0 (v : Q) : Z := Math_round v.
Definition round1 (v : Q) : Q := Qmake (Math_round (v * 10)%Q) 10.

End Units.

(* ================================================================== *)
(** ** src/utils/validators.js

    Station identifiers, on ASCII text: a [string] is the sequence of
    the characters of the JavaScript string. *)

Module Validators.

Import Units.

(** [s.replace(/^RAWS:/, '')] *)
Definition strip_raws (s : string) : string :=
  match s with
  | String a (String b (String c (String d (String e rest)))) =>
      if String.eqb
           (String a (String b (String c (String d (String e EmptyString)))))
           "RAWS:"
      then rest else s
  | _ => s
  end.

Definition code_between (lo hi : nat) (a : Ascii.ascii) : bool :=
  let n := Ascii.nat_of_ascii a in
  (lo <=? n)%nat && (n <=? hi)%nat.

Definition is_digit (a : Ascii.ascii) : bool := code_between 48 57 a.
Definition is_upper (a : Ascii.ascii) : bool := code_between 65 90 a.
Definition is_lower (a : Ascii.ascii) : bool := code_between 97 122 a.

(** The class [[A-Z0-9]] under the flag [i]. *)
Definition is_alnum (a : Ascii.ascii) : bool :=
  is_upper a || is_digit a || is_lower a.

(** White space, as [trim] sees it in ASCII text: tab, line feed,
    vertical tab, form feed, carriage return and space. *)
Definition is_space (a : Ascii.ascii) : bool :=
  code_between 9 13 a || code_between 32 32 a.

Fixpoint all_chars (p : Ascii.ascii -> bool) (s : string) : bool :=
  match s with
  | EmptyString => true
  | String a s' => p a && all_chars p s'
  end.

(** [/^[A-Z0-9]{4,6}$/i.test(s)] *)
Definition station_pattern (s : string) : bool :=
  (4 <=? String.length s)%nat && (String.length s <=? 6)%nat
  && all_chars is_alnum s.

(** [isValidStationId(stationId)] on a string. *)
Definition isValidStationId (stationId : string) : bool :=
  match stationId with
  | EmptyString => false
  | _ => station_pattern (strip_raws stationId)
  end.

Fixpoint trimStart (s : string) : string :=
  match s with
  | EmptyString => EmptyString
  | String a s' => if is_space a then trimStart s' else s
  end.

Fixpoint trimEnd (s : string) : string :=
  match s with
  | EmptyString => EmptyString
  | String a s' =>
      match trimEnd s' with
      | EmptyString => if is_space a then EmptyString
                       else String a EmptyString
      | rest => String a rest
      end
  end.

(** [String.prototype.trim] *)
Definition trim (s : string) : string := trimEnd (trimStart s).

(** [sanitizeStationId(stationId)] on a string. *)
Definition sanitizeStationId (stationId : string) : string :=
  match stationId with
  | EmptyString => EmptyString
  | _ => trim (toUpperCase (strip_raws stationId))
  end.

(** A bare identifier in canonical form: four to six upper-case letters
    or digits. *)
Definition canonical (s : string) : bool :=
  (4 <=? String.length s)%nat && (String.length s <=? 6)%nat
  && all_chars (fun a => is_upper a || is_digit a) s.

End Validators.

(* ================================================================== *)
(** ** src/utils/calculations.js *)

Module Calculations.

(** The two bands of [calculateHainesIndex]. *)
Definition stabilityComponent (temperature : value) : Z :=
  if ge temperature (of_Z 90) then 3
  else if ge temperature (of_Z 75) then 2
  else 1.

Definition moistureComponent (relativeHumidity : value) : Z :=
  if le relativeHumidity (of_Z 20) then 3
  else if le relativeHumidity (of_Z 40) then 2
  else 1.

(** [calculateHainesIndex(temperature, relativeHumidity, elevation)];
    [None] is the [null] result. *)
Definition calculateHainesIndex
           (temperature relativeHumidity elevation : value) : option Z :=
  if nullish temperature || nullish relativeHumidity then None
  else Some (stabilityComponent temperature
             + moistureComponent relativeHumidity).

(** [isRedFlagConditions(relativeHumidity, windSpeed, strict = false)] *)
Definition isRedFlagConditions
           (relativeHumidity windSpeed : value) (strict : bool) : bool :=
  if nullish relativeHumidity || nullish windSpeed then false
  else if strict then
    lt relativeHumidity (of_Z 15) && gt windSpeed (of_Z 25)
  else
    (lt relativeHumidity (of_Z 15) && gt windSpeed (of_Z 25))
    || (lt relativeHumidity (of_Z 20) && gt windSpeed (of_Z 20)).

Inductive dangerClass : Type :=
| Low | Moderate | High | VeryHigh | Extreme.

Record conditions : Type := mkConditions {
  c_temperature : value;
  c_relativeHumidity : value;
  c_windSpeed : value;
  c_fuelMoisture : value
}.

(** The banding at the end of [calculateFireDangerClass]; [cbi] is the
    value returned by [calculateChandlerBurningIndex] ([Null] when it
    returned [null]). *)
Definition chandlerBand (cbi : value) : dangerClass :=
  if ge cbi (of_Z 90) then Extreme
  else if ge cbi (of_Z 75) then VeryHigh
  else if ge cbi (of_Z 50) then High
  else if ge cbi (of_Z 25) then Moderate
  else Low.

Definition of_result (r : option Z) : value :=
  match r with
  | Some z => of_Z z
  | None => Null
  end.

(** [estimateIgnitionProbability(conditions)] *)
Definition estimateIgnitionProbability (c : conditions) : Z :=
  let temperature := c_temperature c in
  let relativeHumidity := c_relativeHumidity c in
  let windSpeed := c_windSpeed c in
  let p1 :=
    if ge temperature (of_Z 95) then 30
    else if ge temperature (of_Z 85) then 20
    else if ge temperature (of_Z 75) then 10
    else 0 in
  let p2 :=
    if le relativeHumidity (of_Z 10) then p1 + 40
    else if le relativeHumidity (of_Z 20) then p1 + 30
    else if le relativeHumidity (of_Z 30) then p1 + 20
    else if le relativeHumidity (of_Z 40) then p1 + 10
    else p1 in
  let p3 :=
    if ge windSpeed (of_Z 20) then p2 + 20
    else if ge windSpeed (of_Z 10) then p2 + 10
    else if ge windSpeed (of_Z 5) then p2 + 5
    else p2 in
  Z.min 100 p3.

Section WithMath.

Context {M : MathLib}.

Local Open Scope Q_scope.

(** [calculateEquilibriumMoistureContent(temperature, relativeHumidity)],
    called on numbers only. *)
Definition calculateEquilibriumMoistureContent
           (temperature relativeHumidity : Q) : Q :=
  let rh := relativeHumidity / 100 in
  if Qle_bool 0.1 rh && Qle_bool rh 1 then
    let term1 := 0.942 * Math_pow rh 0.679 in
    let term2 := (0.000499 * Math_exp (0.1 * rh))
                 + 0.18 * (21.1 - temperature)
                   * (1 - Math_exp (- 0.115 * rh)) in
    term1 + term2
  else 0.

Definition Qmax (a b : Q) : Q := if Qle_bool a b then b else a.
Definition Qmin (a b : Q) : Q := if Qle_bool a b then a else b.

(** [calculateFosbergFFWI(temperature, relativeHumidity, windSpeed)];
    [None] is the [null] result.  The three guards [x == null] leave
    numbers only. *)
Definition calculateFosbergFFWI
           (temperature relativeHumidity windSpeed : value) : option Z :=
  match temperature, relativeHumidity, windSpeed with
  | Num t, Num rh0, Num ws0 =>
      let rh := Qmax 1 (Qmin 100 rh0) in
      let ws := Qmax 0 ws0 in
      let emc := calculateEquilibriumMoistureContent t rh in
      let eta :=
        if Qle_bool emc 10 then
          0.03229 + 0.281073 * emc - 0.000578 * emc * t
        else
          2.22749 + 0.160107 * emc - 0.01478 * t in
      let ffwi := eta * Math_sqrt (1 + ws * ws) in
      Some (Math_round ffwi)
  | _, _, _ => None
  end.

(** [calculateChandlerBurningIndex(temperature, relativeHumidity,
    fuelMoisture = null)] *)
Definition calculateChandlerBurningIndex
           (temperature relativeHumidity fuelMoisture : value)
  : option Z :=
  match temperature, relativeHumidity with
  | Num t, Num rh =>
      let fm :=
        match fuelMoisture with
        | Num f => f
        | _ => calculateEquilibriumMoistureContent t rh
        end in
      let term1 :=
        (110 - 1.373 * rh) - 0.54 * (10.20 - (t - 32) * 5 / 9) in
      let term2 := 124 * Math_pow 10 (- 0.0142 * fm) in
      let cbi := term1 * term2 / 60 in
      Some (Z.max 0 (Math_round cbi))
  | _, _ => None
  end.

(** [calculateFireDangerClass(conditions)]; the Fosberg value the
    function also computes is not read afterwards. *)
Definition calculateFireDangerClass (c : conditions) : dangerClass :=
  let temperature := c_temperature c in
  let relativeHumidity := c_relativeHumidity c in
  let windSpeed := c_windSpeed c in
  let fuelMoisture := c_fuelMoisture c in
  let cbi :=
    calculateChandlerBurningIndex temperature relativeHumidity
                                  fuelMoisture in
  if lt relativeHumidity (of_Z 10)
     || (truthy fuelMoisture && lt fuelMoisture (of_Z 5))
  then Extreme
  else if isRedFlagConditions relativeHumidity windSpeed false
  then Extreme
  else chandlerBand (of_result cbi).

(** The overrides with the red-flag test in the mode the code calls
    it, the relaxed one. *)
Definition relaxed_override (c : conditions) : bool :=
  lt (c_relativeHumidity c) (of_Z 10)
  || (negb (nullish (c_fuelMoisture c))
      && lt (c_fuelMoisture c) (of_Z 5))
  || isRedFlagConditions (c_relativeHumidity c) (c_windSpeed c) false.

(** The classification as the specification words it: the strict
    red-flag test. *)
Definition claimed_override (c : conditions) : bool :=
  lt (c_relativeHumidity c) (of_Z 10)
  || (negb (nullish (c_fuelMoisture c))
      && lt (c_fuelMoisture c) (of_Z 5))
  || isRedFlagConditions (c_relativeHumidity c) (c_windSpeed c) true.

Definition claimedFireDangerClass (c : conditions) : dangerClass :=
  if claimed_override c then Extreme
  else chandlerBand
         (of_result
            (calculateChandlerBurningIndex
               (c_temperature c) (c_relativeHumidity c)
               (c_fuelMoisture c))).

End WithMath.

End Calculations.

(* ================================================================== *)
(** ** src/utils/weather.js *)

Module Weather.

(** [estimateProbabilityOfRain(relativeHumidity, recentPrecip = 0,
    temperature = null)] *)
Definition estimateProbabilityOfRain
           (relativeHumidity recentPrecip temperature : value) : Z :=
  let p0 :=
    if ge relativeHumidity (of_Z 90) then 60
    else if ge relativeHumidity (of_Z 80) then 40
    else if ge relativeHumidity (of_Z 70) then 20
    else if ge relativeHumidity (of_Z 60) then 10
    else 0 in
  let p1 :=
    if gt recentPrecip (Num 0.1) then p0 + 20
    else if gt recentPrecip (Num 0.01) then p0 + 10
    else p0 in
  let p2 :=
    (* the default [temperature = null] also replaces [undefined] *)
    if nullish temperature then p1
    else if lt temperature (of_Z 32) then Z.max 0 (p1 - 10) else p1 in
  Z.min 100 p2.

(** [estimateWindGust(windSpeed)] *)
Definition estimateWindGust (windSpeed : value) : Z :=
  match windSpeed with
  | Num w => if Qeq_bool w 0 then 0 else Math_round (w * 1.5)%Q
  | _ => 0
  end.

(** One element of the series handed to [detectExtremeChanges]: the
    fields the function reads.  The canonical series records carry
    [relativeHumidity]; a field the object lacks reads as [Undefined]. *)
Record seriesPoint : Type := mkPoint {
  p_timestamp : Z;
  p_windSpeed : value;
  p_humidity : value;
  p_temperature : value
}.

Inductive changeType : Type :=
| wind_increase | humidity_drop | temperature_spike.

(** The objects [detectExtremeChanges] pushes:
    [{ type, value, time, description }]; the description is kept as the
    two numbers it prints. *)
Record detectedChange : Type := mkDetected {
  d_type : changeType;
  d_value : Q;
  d_time : Z;
  d_rounded : Z;
  d_minutes : Z
}.

(** [[...timeSeries].sort((a, b) => a.timestamp - b.timestamp)]: a
    stable sort on the instants. *)
Fixpoint insert_by_time (p : seriesPoint) (l : list seriesPoint)
  : list seriesPoint :=
  match l with
  | [] => [p]
  | q :: l' =>
      if p_timestamp p <? p_timestamp q then p :: l
      else q :: insert_by_time p l'
  end.

Definition sort_by_time (l : list seriesPoint) : list seriesPoint :=
  fold_left (fun acc p => insert_by_time p acc) l [].

Definition hours_between (current next : seriesPoint) : Q :=
  (inject_Z (p_timestamp next - p_timestamp current)
   / inject_Z (1000 * 60 * 60))%Q.

Definition exceeds (d : JS.number) (threshold : Z) : option Q :=
  match d with
  | Some q => if Qltb (inject_Z threshold) q then Some q else None
  | None => None
  end.

Definition detected (ty : changeType) (d : JS.number) (threshold : Z)
           (timeDiff : Q) (next : seriesPoint) : list detectedChange :=
  match exceeds d threshold with
  | Some q =>
      [ mkDetected ty q (p_timestamp next) (Math_round q)
                   (Math_round (timeDiff * 60)%Q) ]
  | None => []
  end.

(** The body of the loop for the pair [current], [next]. *)
Definition pair_changes (current next : seriesPoint)
  : list detectedChange :=
  let timeDiff := hours_between current next in
  if Qle_bool timeDiff 3 && Qltb 0 timeDiff then
    detected wind_increase
             (JS.sub (p_windSpeed next) (p_windSpeed current)) 15
             timeDiff next
    ++ detected humidity_drop
                (JS.sub (p_humidity current) (p_humidity next)) 20
                timeDiff next
    ++ detected temperature_spike
                (JS.sub (p_temperature next) (p_temperature current)) 20
                timeDiff next
  else [].

Fixpoint scan_pairs (sorted : list seriesPoint) : list detectedChange :=
  match sorted with
  | current :: ((next :: _) as rest) =>
      pair_changes current next ++ scan_pairs rest
  | _ => []
  end.

(** The threshold each kind of change has to exceed. *)
Definition threshold_of (ty : changeType) : Q :=
  match ty with
  | wind_increase => 15%Q
  | _ => 20%Q
  end.

(** [detectExtremeChanges(timeSeries)] *)
Definition detectExtremeChanges (timeSeries : list seriesPoint)
  : list detectedChange :=
  if (Z.of_nat (List.length timeSeries) <? 2) then []
  else scan_pairs (sort_by_time timeSeries).

(** The argument of [assessFireWeatherSeverity]. *)
Record fireWeather : Type := mkFireWeather {
  fw_temperature : value;
  fw_relativeHumidity : value;
  fw_windSpeed : value;
  fw_windGust : value;
  fw_fuelMoisture : value
}.

(** The four cascades of [assessFireWeatherSeverity]: the factor pushed,
    if any, and the points added to the score. *)
Definition temperatureFactor (temperature : value) : option string * Z :=
  if ge temperature (of_Z 100) then (Some "Extreme temperature"%string, 3)
  else if ge temperature (of_Z 90) then (Some "High temperature"%string, 2)
  else if ge temperature (of_Z 80) then (Some "Elevated temperature"%string, 1)
  else (None, 0).

Definition humidityFactor (relativeHumidity : value) : option string * Z :=
  if le relativeHumidity (of_Z 10) then (Some "Critically low humidity"%string, 4)
  else if le relativeHumidity (of_Z 15) then (Some "Very low humidity"%string, 3)
  else if le relativeHumidity (of_Z 25) then (Some "Low humidity"%string, 2)
  else if le relativeHumidity (of_Z 35)
       then (Some "Below average humidity"%string, 1)
  else (None, 0).

Definition windFactor (maxWind : value) : option string * Z :=
  if ge maxWind (of_Z 40) then (Some "Dangerous winds"%string, 4)
  else if ge maxWind (of_Z 30) then (Some "Very high winds"%string, 3)
  else if ge maxWind (of_Z 20) then (Some "High winds"%string, 2)
  else if ge maxWind (of_Z 15) then (Some "Elevated winds"%string, 1)
  else (None, 0).

Definition fuelFactor (fuelMoisture : value) : option string * Z :=
  if nullish fuelMoisture then (None, 0)
  else if le fuelMoisture (of_Z 5) then (Some "Critically dry fuels"%string, 3)
  else if le fuelMoisture (of_Z 8) then (Some "Very dry fuels"%string, 2)
  else if le fuelMoisture (of_Z 10) then (Some "Dry fuels"%string, 1)
  else (None, 0).

(** [factors.push(...); score += ...] *)
Definition push_factor (acc : list string * Z) (f : option string * Z)
  : list string * Z :=
  (match fst f with
   | Some s => fst acc ++ [s]
   | None => fst acc
   end,
   snd acc + snd f).

Definition severityBand (score : Z) : Calculations.dangerClass :=
  if score >=? 10 then Calculations.Extreme
  else if score >=? 7 then Calculations.VeryHigh
  else if score >=? 5 then Calculations.High
  else if score >=? 3 then Calculations.Moderate
  else Calculations.Low.

Record assessment : Type := mkAssessment {
  severity : Calculations.dangerClass;
  score : Z;
  factors : list string
}.

(** [assessFireWeatherSeverity(conditions)] *)
Definition assessFireWeatherSeverity (c : fireWeather) : assessment :=
  let maxWind := or_else (fw_windGust c) (fw_windSpeed c) in
  let acc :=
    fold_left push_factor
              [ temperatureFactor (fw_temperature c);
                humidityFactor (fw_relativeHumidity c);
                windFactor maxWind;
                fuelFactor (fw_fuelMoisture c) ]
              ([], 0) in
  {| severity := severityBand (snd acc);
     score := snd acc;
     factors := fst acc |}.

(** The order of the five severities. *)
Definition severityRank (d : Calculations.dangerClass) : Z :=
  match d with
  | Calculations.Low => 0
  | Calculations.Moderate => 1
  | Calculations.High => 2
  | Calculations.VeryHigh => 3
  | Calculations.Extreme => 4
  end.

End Weather.

(* ================================================================== *)
(** ** src/schemas/transformer.js and src/schemas/wildfire-schema.js *)

Module Transformer.

Import Units Calculations Weather.
Local Open Scope string_scope.

(** The fields of [rawsData] the weather-risk part reads. *)
Record observation : Type := mkObservation {
  temperature : value;
  relativeHumidity : value;
  windSpeed : value;
  windGust : value;
  windDirection : value;
  precipAccum : value;
  fuelMoisture : value
}.

(** An alert as [NWSClient.getAlerts] shapes it; [None] is a missing or
    [null] property. *)
Record alert : Type := mkAlert {
  event : string;
  onset : option string;
  expires : option string;
  headline : option string;
  a_description : option string
}.

Record options : Type := mkOptions {
  nwsAlerts : list alert;
  historicalData : list seriesPoint
}.

(** An ISO-8601 string: one the provider sent, or the rendering of a
    clock instant. *)
Inductive instant : Type :=
| Provided (s : string)
| Clock (ms : Z).

Inductive level : Type := Watch | RedFlag | ExtremeLevel.

(** The description strings, kept as the numbers they print. *)
Inductive text : Type :=
| ProviderText (s : string)
| CriticalFireWeather (humidity wind : option Z) (gusts : option Z)
| ElevatedFireWeather (humidity wind : option Z).

Record warning : Type := mkWarning {
  start_time : instant;
  end_time : instant;
  w_level : level;
  w_description : option text
}.

(** An element of [extreme_changes]: an object of the schema's shape, or
    one of the objects [detectExtremeChanges] returned, pushed as is. *)
Inductive changeEntry : Type :=
| SchemaEntry (parameter change : string)
              (magnitude : JS.number * string) (time_frame : string)
| DetectedEntry (d : detectedChange).

Inductive confidence : Type := ConfHigh | ConfMedium | ConfLow.

Record weatherRisks : Type := mkRisks {
  temperature_value : option Z;
  humidity_percent : option Z;
  wind_speed : option Z;
  wind_gusts : option Z;
  wind_direction : string;
  rain_percent : Z;
  rain_confidence : confidence;
  red_flag_warnings : list warning;
  extreme_changes : list changeEntry
}.

Inductive issue : Type :=
| AtTemperatureValue
| AtHumidityPercent
| AtWindSpeed
| AtWindGusts
| AtRainPercent
| AtWarningDescription (index : nat)
| AtExtremeChange (index : nat).

Inductive transformError : Type :=
| MissingRequiredFields (missing : list string)
| SchemaViolation (issues : list issue).

(** [round(value, 0)] and [round(value, 1)] on a value; [None] is NaN. *)
Definition round0v (v : value) : option Z :=
  option_map round0 (ToNumber v).

Definition round1v (v : value) : JS.number :=
  option_map round1 (ToNumber v).

(** [validateRequiredFields]: the list [missing]. *)
Definition missingFields (rawsData : observation) : list string :=
  map fst
      (filter (fun f => nullish (snd f))
              [ ("temperature", temperature rawsData);
                ("relativeHumidity", relativeHumidity rawsData);
                ("windSpeed", windSpeed rawsData) ]).

(** [s || fallback] on strings. *)
Definition nonempty (s : option string) : bool :=
  match s with
  | Some EmptyString => false
  | Some _ => true
  | None => false
  end.

Definition isFireAlert (a : alert) : bool :=
  String.eqb (event a) "Red Flag Warning"
  || String.eqb (event a) "Fire Weather Watch".

Definition six_hours : Z := 6 * 3600 * 1000.

(** [s || new Date(...).toISOString()] *)
Definition provided_or (s : option string) (fallback : instant) : instant :=
  match s with
  | Some EmptyString => fallback
  | Some iso => Provided iso
  | None => fallback
  end.

Definition alertWarning (now : Z) (a : alert) : warning :=
  {| start_time := provided_or (onset a) (Clock now);
     end_time := provided_or (expires a) (Clock (now + six_hours));
     w_level :=
       if String.eqb (event a) "Red Flag Warning" then RedFlag else Watch;
     w_description :=
       option_map ProviderText
                  (if nonempty (headline a) then headline a
                   else a_description a) |}.

(** [Math.max(windSpeed, windGust || 0)] as a value. *)
Definition strongestWind (rawsData : observation) : value :=
  match Math_max (windSpeed rawsData)
                 (or_else (windGust rawsData) (Num 0)) with
  | Some q => Num q
  | None => Undefined
  end.

Definition thresholdWarnings (now : Z) (rawsData : observation)
  : list warning :=
  let rh := relativeHumidity rawsData in
  let ws := windSpeed rawsData in
  let wg := windGust rawsData in
  if isRedFlagConditions rh (strongestWind rawsData) false then
    [ {| start_time := Clock now;
         end_time := Clock (now + six_hours);
         w_level := RedFlag;
         w_description :=
           Some (CriticalFireWeather
                   (round0v rh) (round0v ws)
                   (if truthy wg then round0v wg else None)) |} ]
  else if lt rh (of_Z 25) && gt ws (of_Z 15) then
    [ {| start_time := Clock now;
         end_time := Clock (now + six_hours);
         w_level := Watch;
         w_description :=
           Some (ElevatedFireWeather (round0v rh) (round0v ws)) |} ]
  else [].

(** [transformRedFlagWarnings(rawsData, nwsAlerts)] *)
Definition transformRedFlagWarnings
           (now : Z) (rawsData : observation) (alerts : list alert)
  : list warning :=
  let warnings := map (alertWarning now) (filter isFireAlert alerts) in
  match warnings with
  | [] => thresholdWarnings now rawsData
  | _ => warnings
  end.

(** [transformExtremeChanges(rawsData, historicalData)] *)
Definition transformExtremeChanges
           (rawsData : observation) (history : list seriesPoint)
  : list changeEntry :=
  let wg := windGust rawsData in
  let rh := relativeHumidity rawsData in
  let fm := fuelMoisture rawsData in
  (match history with
   | [] => []
   | _ => map DetectedEntry (detectExtremeChanges history)
   end)
  ++ (if truthy wg && gt wg (of_Z 40) then
        [ SchemaEntry "wind" "gusts up to"
                      (option_map inject_Z (round0v wg), " mph")
                      "current" ]
      else [])
  ++ (if lt rh (of_Z 10) then
        [ SchemaEntry "humidity" "critically low at"
                      (option_map inject_Z (round0v rh), "%")
                      "current" ]
      else [])
  ++ (if negb (nullish fm) && lt fm (of_Z 8) then
        [ SchemaEntry "fuel_moisture" "very dry fuels at"
                      (round1v fm, "%") "current" ]
      else []).

Definition transformWind_gusts (rawsData : observation) : option Z :=
  if negb (nullish (windGust rawsData)) then round0v (windGust rawsData)
  else Some (estimateWindGust (windSpeed rawsData)).

Definition transformWind_direction (rawsData : observation) : string :=
  if negb (nullish (windDirection rawsData))
  then degreesToCardinal (windDirection rawsData)
  else "Unknown".

(** The [weather_risks] object built inside the [try] block. *)
Definition buildRisks (now : Z) (rawsData : observation) (opts : options)
  : weatherRisks :=
  {| temperature_value := round0v (temperature rawsData);
     humidity_percent := round0v (relativeHumidity rawsData);
     wind_speed := round0v (windSpeed rawsData);
     wind_gusts := transformWind_gusts rawsData;
     wind_direction := transformWind_direction rawsData;
     rain_percent :=
       estimateProbabilityOfRain
         (relativeHumidity rawsData)
         (or_else (precipAccum rawsData) (Num 0))
         (temperature rawsData);
     rain_confidence :=
       if gt (precipAccum rawsData) (Num 0) then ConfMedium else ConfLow;
     red_flag_warnings :=
       transformRedFlagWarnings now rawsData (nwsAlerts opts);
     extreme_changes :=
       transformExtremeChanges rawsData (historicalData opts) |}.

(** [wildfireSchema.parse]: the issues of the [weather_risks] part.  The
    remaining members of the document ([location], [as_of],
    [data_sources], [notes]) are strings the transformer builds itself
    and raise no issue. *)
Definition in_range (lo : Z) (hi : option Z) (v : option Z) : bool :=
  match v with
  | Some z =>
      (lo <=? z)%Z
      && match hi with Some h => (z <=? h)%Z | None => true end
  | None => false
  end.

Fixpoint indexed_issues {A : Type} (bad : A -> bool) (at_ : nat -> issue)
         (i : nat) (l : list A) : list issue :=
  match l with
  | [] => []
  | x :: l' =>
      (if bad x then [at_ i] else [])
      ++ indexed_issues bad at_ (S i) l'
  end.

Definition schemaIssues (r : weatherRisks) : list issue :=
  (match temperature_value r with
   | Some _ => []
   | None => [AtTemperatureValue]
   end)
  ++ (if in_range 0 (Some 100) (humidity_percent r)
      then [] else [AtHumidityPercent])
  ++ (if in_range 0 None (wind_speed r) then [] else [AtWindSpeed])
  ++ (if in_range 0 None (wind_gusts r) then [] else [AtWindGusts])
  ++ (if in_range 0 (Some 100) (Some (rain_percent r))
      then [] else [AtRainPercent])
  ++ indexed_issues
       (fun w => match w_description w with None => true | _ => false end)
       AtWarningDescription 0%nat (red_flag_warnings r)
  ++ indexed_issues
       (fun c => match c with DetectedEntry _ => true | _ => false end)
       AtExtremeChange 0%nat (extreme_changes r).

(** [transformToWildfireSchema(rawsData, options)] *)
Definition transformToWildfireSchema
           (now : Z) (rawsData : observation) (opts : options)
  : transformError + weatherRisks :=
  match missingFields rawsData with
  | [] =>
      let wildfire := buildRisks now rawsData opts in
      match schemaIssues wildfire with
      | [] => inr wildfire
      | issues => inl (SchemaViolation issues)
      end
  | missing => inl (MissingRequiredFields missing)
  end.

(** The number [windGust || 0] denotes. *)
Definition gustOrZero (g : value) : Q :=
  match g with
  | Num q => if Qeq_bool q 0 then 0%Q else q
  | _ => 0%Q
  end.

(** The two threshold tiers as the code tests them: the relaxed red-flag
    pair on the strongest wind [m], and the watch pair on the sustained
    wind [w]. *)
Definition relaxedRedFlag (h m : Q) : Prop :=
  (h < 15 /\ 25 < m)%Q \/ (h < 20 /\ 20 < m)%Q.

Definition watchTier (h w : Q) : Prop := (h < 25 /\ 15 < w)%Q.

Definition alertLevel (a : alert) : level :=
  if String.eqb (event a) "Red Flag Warning" then RedFlag else Watch.

(** The warning levels the specification words for the threshold path:
    the strict humidity and wind pair for the "Red Flag" tier. *)
Definition claimedThresholdLevels (rawsData : observation) : list level :=
  if lt (relativeHumidity rawsData) (of_Z 15)
     && gt (strongestWind rawsData) (of_Z 25)
  then [RedFlag]
  else if lt (relativeHumidity rawsData) (of_Z 25)
          && gt (windSpeed rawsData) (of_Z 15)
  then [Watch]
  else [].

End Transformer.

(* ================================================================== *)
(** ** src/api/cache.js *)

Module Cache.

Section WithPayload.

(** The cached payloads. *)
Variable V : Type.

Record entry : Type := mkEntry {
  e_value : V;
  createdAt : Z;
  lastAccessed : Z;
  expiresAt : Z;
  hits : Z
}.

(** [this.store] is a [Map]: keys are unique and iteration follows the
    order of first insertion. *)
Record t : Type := mkCache {
  store : list (string * entry);
  maxSize : Z;
  defaultTTL : Z
}.

Definition with_store (c : t) (s : list (string * entry)) : t :=
  {| store := s; maxSize := maxSize c; defaultTTL := defaultTTL c |}.

(** [Map.prototype.get], [has], [delete], [set] and [size]. *)
Fixpoint map_get (key : string) (s : list (string * entry))
  : option entry :=
  match s with
  | [] => None
  | (k, e) :: s' => if String.eqb k key then Some e else map_get key s'
  end.

Definition map_has (key : string) (s : list (string * entry)) : bool :=
  match map_get key s with
  | Some _ => true
  | None => false
  end.

Definition map_delete (key : string) (s : list (string * entry))
  : list (string * entry) :=
  filter (fun kv => negb (String.eqb (fst kv) key)) s.

Fixpoint map_set (key : string) (e : entry) (s : list (string * entry))
  : list (string * entry) :=
  match s with
  | [] => [(key, e)]
  | (k, e0) :: s' =>
      if String.eqb k key then (k, e) :: s'
      else (k, e0) :: map_set key e s'
  end.

Definition size (c : t) : Z := Z.of_nat (List.length (store c)).

(** [get(key)] at instant [now]; [None] is the [null] result. *)
Definition get (now : Z) (key : string) (c : t) : option V * t :=
  match map_get key (store c) with
  | None => (None, c)
  | Some e =>
      if now >? expiresAt e then
        (None, with_store c (map_delete key (store c)))
      else
        (Some (e_value e),
         with_store c
           (map_set key
              {| e_value := e_value e;
                 createdAt := createdAt e;
                 lastAccessed := now;
                 expiresAt := expiresAt e;
                 hits := hits e + 1 |}
              (store c)))
  end.

(** [has(key)] *)
Definition has (now : Z) (key : string) (c : t) : bool * t :=
  match map_get key (store c) with
  | None => (false, c)
  | Some e =>
      if now >? expiresAt e then
        (false, with_store c (map_delete key (store c)))
      else (true, c)
  end.

(** The loop of [_evictLRU]: [oldestKey] and [oldestTime], the latter
    [None] while it is [Infinity]. *)
Definition lru_step (acc : option string * option Z)
           (kv : string * entry) : option string * option Z :=
  let older :=
    match snd acc with
    | None => true
    | Some oldestTime => lastAccessed (snd kv) <? oldestTime
    end in
  if older then (Some (fst kv), Some (lastAccessed (snd kv))) else acc.

Definition oldestKey (s : list (string * entry)) : option string :=
  fst (fold_left lru_step s (None, None)).

(** [_evictLRU()]; [if (oldestKey)] is a truthiness test. *)
Definition _evictLRU (c : t) : t :=
  match oldestKey (store c) with
  | Some EmptyString => c
  | Some k => with_store c (map_delete k (store c))
  | None => c
  end.

(** [ttl || this.defaultTTL] *)
Definition effectiveTTL (ttl : option Z) (c : t) : Z :=
  match ttl with
  | Some 0 => defaultTTL c
  | Some ms => ms
  | None => defaultTTL c
  end.

(** [set(key, value, ttl = null)] at instant [now]. *)
Definition set (now : Z) (key : string) (value : V) (ttl : option Z)
           (c : t) : t :=
  let c1 :=
    if (size c >=? maxSize c) && negb (map_has key (store c))
    then _evictLRU c else c in
  let e :=
    {| e_value := value;
       createdAt := now;
       lastAccessed := now;
       expiresAt := now + effectiveTTL ttl c;
       hits := 0 |} in
  with_store c1 (map_set key e (store c1)).

Record stats : Type := mkStats {
  s_size : Z;
  s_maxSize : Z;
  totalHits : Z;
  activeEntries : Z;
  expiredEntries : Z
}.

(** [getStats()] *)
Definition getStats (now : Z) (c : t) : stats :=
  let entries := map snd (store c) in
  {| s_size := size c;
     s_maxSize := maxSize c;
     totalHits := fold_left (fun sum e => sum + hits e) entries 0;
     activeEntries :=
       Z.of_nat
         (List.length (filter (fun e => now <? expiresAt e) entries));
     expiredEntries :=
       Z.of_nat
         (List.length (filter (fun e => now >=? expiresAt e) entries))
  |}.

(** [_cleanup()] *)
Definition _cleanup (now : Z) (c : t) : t :=
  with_store c
    (filter (fun kv => negb (now >? expiresAt (snd kv))) (store c)).

(** [delete(key)]: whether the key was stored, and the store without it. *)
Definition delete (key : string) (c : t) : bool * t :=
  (map_has key (store c), with_store c (map_delete key (store c))).

(** [clear()] *)
Definition clear (c : t) : t := with_store c [].

Definition keys (c : t) : list string := map fst (store c).

(** A store as a [Map] holds it (no key twice), within its capacity, and
    without the empty key. *)
Definition wellFormed (c : t) : Prop :=
  NoDup (keys c) /\ size c <= maxSize c /\ ~ In EmptyString (keys c).

End WithPayload.

Arguments delete {V}.
Arguments clear {V}.
Arguments keys {V}.
Arguments wellFormed {V}.
Arguments mkEntry {V}.
Arguments mkCache {V}.
Arguments e_value {V}.
Arguments createdAt {V}.
Arguments lastAccessed {V}.
Arguments expiresAt {V}.
Arguments hits {V}.
Arguments store {V}.
Arguments maxSize {V}.
Arguments defaultTTL {V}.
Arguments with_store {V}.
Arguments map_get {V}.
Arguments map_has {V}.
Arguments map_delete {V}.
Arguments map_set {V}.
Arguments size {V}.
Arguments get {V}.
Arguments has {V}.
Arguments oldestKey {V}.
Arguments _evictLRU {V}.
Arguments effectiveTTL {V}.
Arguments set {V}.
Arguments getStats {V}.
Arguments _cleanup {V}.

End Cache.

(* ================================================================== *)
(** ** src/api/client-manager.js *)

Module ClientManager.

Local Open Scope string_scope.

Section WithProviders.

(** What a provider returns ([data.STATION[0]]) and what it throws.
    Both are objects, hence truthy. *)
Variables (D E : Type).

(** One element of [this.availableClients].  A call of
    [client.getCurrentObservation(stationId)] lasts [fst] milliseconds
    and then returns ([inr]) or throws ([inl]). *)
Record provider : Type := mkProvider {
  name : string;
  fetchCurrent : string -> Z * (E + D)
}.

(** [{ ...data, _meta: { source, cached, timestamp } }] *)
Record sourced : Type := mkSourced {
  data : D;
  meta_source : string;
  meta_cached : bool;
  meta_timestamp : Z
}.

Inductive failure : Type :=
| Thrown (e : E)
| AllSourcesFailed.

(** The shared cache, the clock, and the calls made to providers so
    far (provider name, station id), oldest first. *)
Record world : Type := mkWorld {
  cache : Cache.t sourced;
  clock : Z;
  calls : list (string * string)
}.

Definition cacheKey (stationId : string) : string :=
  "current:" ++ stationId.

(** The [for ... of this.availableClients] loop with its [try/catch]. *)
Fixpoint tryClients (clients : list provider) (stationId : string)
         (lastError : option E) (w : world)
  : (failure + sourced) * world :=
  match clients with
  | [] =>
      (inl (match lastError with
            | Some e => Thrown e
            | None => AllSourcesFailed
            end), w)
  | p :: rest =>
      let (elapsed, outcome) := fetchCurrent p stationId in
      let w1 := {| cache := cache w;
                   clock := clock w + elapsed;
                   calls := calls w ++ [(name p, stationId)] |} in
      match outcome with
      | inr d =>
          let result := {| data := d;
                           meta_source := name p;
                           meta_cached := false;
                           meta_timestamp := clock w1 |} in
          (inr result,
           {| cache := Cache.set (clock w1) (cacheKey stationId) result
                                 (Some 300000) (cache w1);
              clock := clock w1;
              calls := calls w1 |})
      | inl e => tryClients rest stationId (Some e) w1
      end
  end.

(** [getCurrentObservation(stationId)] *)
Definition getCurrentObservation
           (clients : list provider) (stationId : string) (w : world)
  : (failure + sourced) * world :=
  let (cached, c1) :=
    Cache.get (clock w) (cacheKey stationId) (cache w) in
  let w0 := {| cache := c1; clock := clock w; calls := calls w |} in
  match cached with
  | Some v => (inr v, w0)
  | None => tryClients clients stationId None w0
  end.

(** The providers asked by one request: those before the first one
    that answers, and that one. *)
Fixpoint asked (clients : list provider) (stationId : string)
  : list provider :=
  match clients with
  | [] => []
  | p :: rest =>
      match snd (fetchCurrent p stationId) with
      | inr _ => [p]
      | inl _ => p :: asked rest stationId
      end
  end.

Definition succeeds (p : provider) (stationId : string) : bool :=
  match snd (fetchCurrent p stationId) with
  | inr _ => true
  | inl _ => false
  end.

End WithProviders.

Arguments mkProvider {D E}.
Arguments name {D E}.
Arguments fetchCurrent {D E}.
Arguments mkSourced {D}.
Arguments data {D}.
Arguments meta_source {D}.
Arguments meta_cached {D}.
Arguments meta_timestamp {D}.
Arguments Thrown {E}.
Arguments AllSourcesFailed {E}.
Arguments mkWorld {D}.
Arguments cache {D}.
Arguments clock {D}.
Arguments calls {D}.
Arguments tryClients {D E}.
Arguments getCurrentObservation {D E}.
Arguments asked {D E}.
Arguments succeeds {D E}.

End ClientManager.

(* ================================================================== *)
(** ** src/api/base-client.js *)

Module BaseClient.

(** [error.response]: the status, the [retry-after] header as
    [parseInt(header, 10)] reads it when the header is present and not
    empty (the inner [None] is NaN), and [data.message]. *)
Record response : Type := mkResponse {
  status : Z;
  retryAfter : option (option Z);
  dataMessage : option string
}.

(** What [this.client.request(config)] throws. *)
Record error : Type := mkError {
  e_response : option response;
  e_code : option string;
  e_message : string
}.

(** [error.response?.status] *)
Definition statusOf (e : error) : option Z :=
  option_map status (e_response e).

Definition status_is (e : error) (s : Z) : bool :=
  match statusOf e with
  | Some z => z =? s
  | None => false
  end.

Definition status_ge (e : error) (s : Z) : bool :=
  match statusOf e with
  | Some z => z >=? s
  | None => false
  end.

Definition code_is (e : error) (c : string) : bool :=
  match e_code e with
  | Some c' => String.eqb c' c
  | None => false
  end.

(** [_shouldRetry(error)] *)
Definition _shouldRetry (e : error) : bool :=
  if status_is e 429 then true
  else if status_ge e 500 then true
  else if code_is e "ECONNABORTED"%string || code_is e "ENOTFOUND"%string
          || code_is e "ETIMEDOUT"%string || code_is e "ECONNRESET"%string then true
  else false.

(** [_getRetryDelay(error, attempt)]; [None] is NaN. *)
Definition _getRetryDelay (e : error) (attempt : Z) : option Z :=
  if status_is e 429 then
    match e_response e with
    | Some {| retryAfter := Some parsed |} =>
        option_map (fun n => n * 1000) parsed
    | _ => Some (2 ^ attempt * 1000)
    end
  else if status_ge e 500 then Some (2 ^ attempt * 1000)
  else Some 1000.

(** The [code] of a normalised error: [HTTP_<status>], the error's own
    code, or [UNKNOWN_ERROR]. *)
Inductive errorCode : Type :=
| HTTP (status : Z)
| Code (c : string)
| UNKNOWN_ERROR.

Record normalized : Type := mkNormalized {
  n_code : errorCode;
  n_message : string;
  n_status : Z
}.

(** [_normalizeError(error)]; [a || b] and [if (error.code)] on strings
    are truthiness tests. *)
Definition _normalizeError (e : error) : normalized :=
  match e_response e with
  | Some r =>
      {| n_code := HTTP (status r);
         n_message :=
           match dataMessage r with
           | Some EmptyString | None => e_message e
           | Some m => m
           end;
         n_status := status r |}
  | None =>
      match e_code e with
      | Some EmptyString | None =>
          {| n_code := UNKNOWN_ERROR;
             n_message := e_message e;
             n_status := 0 |}
      | Some c =>
          {| n_code := Code c; n_message := e_message e; n_status := 0 |}
      end
  end.

(** What one call of [request] does, in order: the HTTP requests sent,
    with their attempt number, and the pauses of [_sleep]. *)
Inductive event : Type :=
| Requested (attempt : Z)
| Slept (delay : option Z).

Section WithTransport.

(** The response data, and the outcome of [this.client.request(config)]
    at each attempt of one call of [request]. *)
Variable D : Type.
Variable transport : Z -> error + D.

(** How [request] ends: it returns the data, throws a normalised error,
    or reaches the [throw lastError] after the loop ([None] when
    [lastError] is still [undefined]). *)
Inductive outcome : Type :=
| Returned (d : D)
| Threw (e : normalized)
| ThrewLast (lastError : option error).

(** The [for] loop of [request]; [remaining] counts the iterations left
    before [attempt < maxRetries] fails. *)
Fixpoint attempts (maxRetries : Z) (remaining : nat) (attempt : Z)
         (lastError : option error) : outcome * list event :=
  match remaining with
  | O => (ThrewLast lastError, [])
  | S remaining' =>
      match transport attempt with
      | inr d => (Returned d, [Requested attempt])
      | inl e =>
          let isLastAttempt := attempt =? maxRetries - 1 in
          let shouldRetry := _shouldRetry e in
          if isLastAttempt || negb shouldRetry then
            (Threw (_normalizeError e), [Requested attempt])
          else
            let delay := _getRetryDelay e attempt in
            let (out, later) :=
              attempts maxRetries remaining' (attempt + 1) (Some e) in
            (out, Requested attempt :: Slept delay :: later)
      end
  end.

(** [request(config, maxRetries = 3)], for an integer budget. *)
Definition request (maxRetries : Z) : outcome * list event :=
  attempts maxRetries (Z.to_nat maxRetries) 0 None.

End WithTransport.

Arguments Returned {D}.
Arguments Threw {D}.
Arguments ThrewLast {D}.
Arguments attempts {D}.
Arguments request {D}.

(** The number of HTTP requests in a trace, and its pauses in order. *)
Fixpoint requests (log : list event) : Z :=
  match log with
  | [] => 0
  | Requested _ :: log' => 1 + requests log'
  | Slept _ :: log' => requests log'
  end.

Fixpoint delays (log : list event) : list (option Z) :=
  match log with
  | [] => []
  | Requested _ :: log' => delays log'
  | Slept d :: log' => d :: delays log'
  end.

(** The time spent in pauses; [setTimeout] does not wait on NaN or on a
    negative delay. *)
Definition pause (d : option Z) : Z :=
  match d with
  | Some ms => Z.max 0 ms
  | None => 0
  end.

Definition slept (log : list event) : Z :=
  fold_right (fun d acc => pause d + acc) 0 (delays log).

End BaseClient.

(* ================================================================== *)
(** ** src/api/nws.js and the alert lookup of src/api/client-manager.js *)

Module NWS.

Section WithAlerts.

(** [alert.properties] of a feature, the alert object built from it, and
    the values of the shared cache, of which an array of alerts is one.
    Every cached value is an object or an array, hence truthy. *)
Variables (P A V : Type).
Variable pick : P -> A.
Variable ofAlerts : list A -> V.

(** A feature of the response; [None] where it has no [properties]. *)
Record feature : Type := mkFeature {
  properties : option P
}.

(** The response data; [None] where it has no [features]. *)
Record body : Type := mkBody {
  features : option (list feature)
}.

(** [data.features.map(alert => ({ event: alert.properties.event, ... }))];
    [None] where reading a member of an undefined [properties] throws. *)
Fixpoint map_features (fs : list feature) : option (list A) :=
  match fs with
  | [] => Some []
  | f :: fs' =>
      match properties f with
      | None => None
      | Some p =>
          match map_features fs' with
          | None => None
          | Some alerts => Some (pick p :: alerts)
          end
      end
  end.

(** [getAlerts(latitude, longitude)], over the HTTP attempts of its call
    of [this.request] (with the default budget of 3); the [catch] turns
    everything thrown into the empty array. *)
Definition getAlerts (transport : Z -> BaseClient.error + body) : list A :=
  match fst (BaseClient.request transport 3) with
  | BaseClient.Returned data =>
      match features data with
      | None => []
      | Some [] => []
      | Some fs =>
          match map_features fs with
          | Some alerts => alerts
          | None => []
          end
      end
  | _ => []
  end.

(** The shared cache, the clock, and the points for which the alert
    service has been asked so far, oldest first. *)
Record alertWorld : Type := mkAlertWorld {
  w_cache : Cache.t V;
  w_clock : Z;
  w_asked : list string
}.

(** For a point ([latitude,longitude] as text): how long the call of
    [getAlerts] lasts, and how its HTTP attempts go. *)
Definition service : Type :=
  string -> Z * (Z -> BaseClient.error + body).

Definition alertsKey (point : string) : string :=
  ("nws:alerts:" ++ point)%string.

(** [ClientManager.getNWSAlerts(latitude, longitude)]; [enabled] is
    [config.features.nwsIntegration]. *)
Definition getNWSAlerts (enabled : bool) (nws : service) (point : string)
           (w : alertWorld) : V * alertWorld :=
  if negb enabled then (ofAlerts [], w)
  else
    let (cached, c1) :=
      Cache.get (w_clock w) (alertsKey point) (w_cache w) in
    match cached with
    | Some v =>
        (v, {| w_cache := c1; w_clock := w_clock w; w_asked := w_asked w |})
    | None =>
        let (elapsed, transport) := nws point in
        let alerts := getAlerts transport in
        let now := w_clock w + elapsed in
        (ofAlerts alerts,
         {| w_cache := Cache.set now (alertsKey point) (ofAlerts alerts)
                                 (Some 300000) c1;
            w_clock := now;
            w_asked := w_asked w ++ [point] |})
    end.

(** The same world [ms] milliseconds later. *)
Definition later (ms : Z) (w : alertWorld) : alertWorld :=
  {| w_cache := w_cache w;
     w_clock := w_clock w + ms;
     w_asked := w_asked w |}.

End WithAlerts.

Arguments mkFeature {P}.
Arguments properties {P}.
Arguments mkBody {P}.
Arguments features {P}.
Arguments map_features {P A}.
Arguments getAlerts {P A}.
Arguments mkAlertWorld {V}.
Arguments w_cache {V}.
Arguments w_clock {V}.
Arguments w_asked {V}.
Arguments getNWSAlerts {P A V}.
Arguments later {V}.

End NWS.

(* ================================================================== *)
(** ** A fixed-point evaluation of the [Math] functions

    Truncated series on integers scaled by [10^30]: a [MathLib] that can
    be run, used for closed evaluations.  What is proved for every
    [MathLib] does not depend on it. *)

Module SeriesMath.

Definition scale : Z := 10 ^ 30.

Definition to_fixed (q : Q) : Z := Qfloor (q * inject_Z scale)%Q.

Definition of_fixed (z : Z) : Q := Qmake z (Z.to_pos scale).

(** [acc + term + term * x / k + term * x^2 / (k (k+1)) + ...] *)
Fixpoint exp_terms (n : nat) (x term k acc : Z) : Z :=
  match n with
  | O => acc
  | S n' =>
      exp_terms n' x (term * x / (scale * k)) (k + 1) (acc + term)
  end.

Definition exp_fixed (x : Z) : Z := exp_terms 80 x scale 1 0.

(** [y + y^3 / 3 + y^5 / 5 + ...], the series of [atanh]. *)
Fixpoint atanh_terms (n : nat) (y2 power k acc : Z) : Z :=
  match n with
  | O => acc
  | S n' =>
      atanh_terms n' y2 (power * y2 / scale) (k + 2) (acc + power / k)
  end.

Definition ln_fixed (x : Z) : Z :=
  let y := (x - scale) * scale / (x + scale) in
  2 * atanh_terms 200 (y * y / scale) y 1 0.

Definition exp_series (x : Q) : Q := of_fixed (exp_fixed (to_fixed x)).

Definition pow_series (b e : Q) : Q :=
  if to_fixed b <=? 0 then 0%Q
  else of_fixed (exp_fixed (to_fixed e * ln_fixed (to_fixed b) / scale)).

Definition sqrt_series (x : Q) : Q :=
  Qmake (Z.sqrt (to_fixed x * scale)) (Z.to_pos scale).

Definition seriesMath : MathLib.
Proof.
  refine {| Math_exp := exp_series;
            Math_pow := pow_series;
            Math_sqrt := sqrt_series |}.
  - intros x y H. unfold exp_series.
    assert (to_fixed x = to_fixed y) as ->
        by (apply Qfloor_comp; rewrite H; reflexivity).
    reflexivity.
  - intros b b' e e' Hb He. unfold pow_series.
    assert (to_fixed b = to_fixed b') as ->
        by (apply Qfloor_comp; rewrite Hb; reflexivity).
    assert (to_fixed e = to_fixed e') as ->
        by (apply Qfloor_comp; rewrite He; reflexivity).
    reflexivity.
  - intros x y H. unfold sqrt_series.
    assert (to_fixed x = to_fixed y) as ->
        by (apply Qfloor_comp; rewrite H; reflexivity).
    reflexivity.
Defined.

End SeriesMath.

(* ================================================================== *)
(** ** Inputs used in the evaluations below *)

Module Inputs.

Import Calculations Weather Transformer.
Local Open Scope string_scope.

(** Humidity 18 %, wind 22 mph, no gust reading, nothing else known. *)
Definition dry_breezy : observation :=
  {| temperature := Num 70;
     relativeHumidity := Num 18;
     windSpeed := Num 22;
     windGust := Null;
     windDirection := Null;
     precipAccum := Null;
     fuelMoisture := Null |}.

(** Two readings one hour apart, wind rising from 5 to 25 mph. *)
Definition rising_wind : list seriesPoint :=
  [ {| p_timestamp := 0; p_windSpeed := Num 5;
       p_humidity := Undefined; p_temperature := Num 70 |};
    {| p_timestamp := 3600000; p_windSpeed := Num 25;
       p_humidity := Undefined; p_temperature := Num 70 |} ].

Definition mild : observation :=
  {| temperature := Num 70;
     relativeHumidity := Num 40;
     windSpeed := Num 5;
     windGust := Null;
     windDirection := Null;
     precipAccum := Null;
     fuelMoisture := Null |}.

(** A cache of capacity one holding the payload 7 under the key "k",
    stored at instant 0 for 5 ms. *)
Definition one_entry : Cache.t Z :=
  Cache.set 0 "k" 7 (Some 5)
            {| Cache.store := []; Cache.maxSize := 1;
               Cache.defaultTTL := 300000 |}.

(** A full cache of capacity one whose only key is the empty string. *)
Definition empty_key_full : Cache.t Z :=
  Cache.set 0 EmptyString 7 (Some 5)
            {| Cache.store := []; Cache.maxSize := 1;
               Cache.defaultTTL := 300000 |}.

(** A primary provider that always fails and a backup that answers
    after 40 ms; payloads and errors are numbers here. *)
Definition primary : ClientManager.provider Z Z :=
  ClientManager.mkProvider "synoptic" (fun _ => (30, inl 503)).

Definition backup : ClientManager.provider Z Z :=
  ClientManager.mkProvider "mesowest" (fun _ => (40, inr 11)).

Definition cold_start : ClientManager.world Z :=
  {| ClientManager.cache :=
       {| Cache.store := []; Cache.maxSize := 1000;
          Cache.defaultTTL := 300000 |};
     ClientManager.clock := 1000;
     ClientManager.calls := [] |}.

(** 65 F, 18 % humidity, 22 mph wind, fuel moisture 75 %. *)
Definition breezy_moist_fuel : conditions :=
  {| c_temperature := Num 65;
     c_relativeHumidity := Num 18;
     c_windSpeed := Num 22;
     c_fuelMoisture := Num 75 |}.

(** The scenario of the fixture station: 88.2 F, 12.5 % humidity, wind
    28.3 mph gusting 42.7 mph from 310 degrees, fuel moisture 4.2 %. *)
Definition monument_creek : observation :=
  {| temperature := Num 88.2;
     relativeHumidity := Num 12.5;
     windSpeed := Num 28.3;
     windGust := Num 42.7;
     windDirection := Num 310;
     precipAccum := Null;
     fuelMoisture := Num 4.2 |}.

(** A cache of capacity two holding "a" (stored at 0) and "b" (stored at
    1), both for 100 ms. *)
Definition two_entries : Cache.t Z :=
  Cache.set 1 "b" 8 (Some 100)
            (Cache.set 0 "a" 7 (Some 100)
                       {| Cache.store := []; Cache.maxSize := 2;
                          Cache.defaultTTL := 300000 |}).

Definition red_flag_alert : alert :=
  {| event := "Red Flag Warning";
     onset := Some "2025-08-29T12:00:00Z";
     expires := Some "2025-08-29T20:00:00Z";
     headline := Some "Red Flag Warning issued";
     a_description := None |}.

(** A hot, dry and windy afternoon with dry fuels. *)
Definition extreme_afternoon : fireWeather :=
  {| fw_temperature := Num 102;
     fw_relativeHumidity := Num 8;
     fw_windSpeed := Num 30;
     fw_windGust := Num 45;
     fw_fuelMoisture := Num 4 |}.

(** A 503 answer, a connection reset and a 404 answer. *)
Definition unavailable : BaseClient.error :=
  {| BaseClient.e_response :=
       Some {| BaseClient.status := 503;
               BaseClient.retryAfter := None;
               BaseClient.dataMessage := None |};
     BaseClient.e_code := None;
     BaseClient.e_message := "Request failed with status code 503" |}.

Definition connection_reset : BaseClient.error :=
  {| BaseClient.e_response := None;
     BaseClient.e_code := Some "ECONNRESET";
     BaseClient.e_message := "socket hang up" |}.

(** A server that answers 503, then drops the connection, then answers. *)
Definition flaky_transport (attempt : Z) : BaseClient.error + Z :=
  if (attempt =? 0)%Z then inl unavailable
  else if (attempt =? 1)%Z then inl connection_reset
  else inr 7%Z.

(** The alert service during an outage, and back with one alert. *)
Definition nws_down : NWS.service string :=
  fun _ => (40%Z, fun _ => inl unavailable).

Definition nws_up : NWS.service string :=
  fun _ =>
    (40%Z,
     fun _ => inr {| NWS.features :=
                       Some [ {| NWS.properties :=
                                   Some "Red Flag Warning" |} ] |}).

Definition no_alert_cached : NWS.alertWorld (list string) :=
  {| NWS.w_cache := {| Cache.store := []; Cache.maxSize := 1000;
                     Cache.defaultTTL := 300000 |};
     NWS.w_clock := 0%Z;
     NWS.w_asked := [] |}.

End Inputs.

(* ================================================================== *)
(** ** Theorems *)

Import Units Calculations.

(** C6 (as the code behaves): [Math.round] is applied after the 11.25 shift,
    so every sector is displaced by half a sector: 0 and 360 degrees both
    map to "NNE", not "N". *)
Theorem degreesToCardinal_zero_is_NNE :
  degreesToCardinal (Num 0) = "NNE"%string /\
  degreesToCardinal (Num 360) = "NNE"%string /\
  degreesToCardinal (Num 45) = "ENE"%string /\
  degreesToCardinal Null = "Unknown"%string.
Proof. repeat split; vm_compute; reflexivity. Qed.

(** C10: the Haines estimate never reads its elevation argument; on
    numbers it is the sum of the temperature band and the humidity band. *)
Theorem calculateHainesIndex_ignores_elevation :
  forall t h e1 e2 : value,
    calculateHainesIndex t h e1 = calculateHainesIndex t h e2
    /\ forall tq hq : Q,
        calculateHainesIndex (Num tq) (Num hq) e1
        = Some (stabilityComponent (Num tq) + moistureComponent (Num hq)).
Proof.
  intros t h e1 e2. split; [reflexivity|]. intros tq hq. reflexivity.
Qed.

(* ------------------------------------------------------------------ *)
(** *** Comparisons on rationals *)

Lemma Qltb_true (a b : Q) : Qltb a b = true <-> (a < b)%Q.
Proof.
  unfold Qltb. rewrite negb_true_iff. split.
  - intros H. apply Qnot_le_lt. intros Hle.
    apply Qle_bool_iff in Hle. congruence.
  - intros H. destruct (Qle_bool b a) eqn:E; [|reflexivity].
    apply Qle_bool_iff in E. exfalso. apply (Qlt_not_le _ _ H E).
Qed.


Lemma Qle_bool_false (a b : Q) : Qle_bool a b = false <-> (b < a)%Q.
Proof.
  rewrite <- Qltb_true. unfold Qltb.
  destruct (Qle_bool a b); simpl; split; congruence.
Qed.

Lemma Math_round_lt (q : Q) (z : Z) :
  (q + (1 # 2) < inject_Z z)%Q -> Math_round q < z.
Proof.
  intros H. unfold Math_round.
  assert (Hf := Qfloor_le (q + (1 # 2))).
  assert (inject_Z (Qfloor (q + (1 # 2))) < inject_Z z)%Q as Hlt
      by (eapply Qle_lt_trans; eauto).
  rewrite <- Zlt_Qlt in Hlt. exact Hlt.
Qed.

Lemma Math_round_ge (q : Q) (z : Z) :
  (inject_Z z <= q + (1 # 2))%Q -> z <= Math_round q.
Proof.
  intros H. unfold Math_round.
  rewrite <- (Qfloor_Z z). apply Qfloor_resp_le. exact H.
Qed.

Lemma Qdiv_const (x : Q) (n : positive) :
  (x / (Zpos n # 1) == x * (1 # n))%Q.
Proof. unfold Qdiv. reflexivity. Qed.

Lemma Qfloor_unique (x : Q) (z : Z) :
  (inject_Z z <= x)%Q -> (x < inject_Z (z + 1))%Q -> Qfloor x = z.
Proof.
  intros Hle Hlt.
  assert (z <= Qfloor x)
    by (rewrite <- (Qfloor_Z z); apply Qfloor_resp_le; exact Hle).
  assert (inject_Z (Qfloor x) < inject_Z (z + 1))%Q as H1
      by (eapply Qle_lt_trans; [apply Qfloor_le|exact Hlt]).
  rewrite <- Zlt_Qlt in H1. lia.
Qed.

(* ------------------------------------------------------------------ *)
(** *** Compass sectors *)

Lemma Qtrunc_small (r : Q) : (0 <= r)%Q -> (r < 1)%Q -> Qtrunc r = 0.
Proof.
  intros H0 H1. unfold Qtrunc. apply Z.quot_small.
  unfold Qle in H0. unfold Qlt in H1. simpl in *. lia.
Qed.

Lemma normalize_degrees_in_range (q : Q) :
  (0 <= q)%Q -> (q < 360)%Q -> (normalize_degrees q == q)%Q.
Proof.
  intros H0 H1. unfold normalize_degrees, JS.rem.
  assert (Qtrunc (q / 360) = 0) as ->.
  { apply Qtrunc_small; rewrite (Qdiv_const q 360); lra. }
  assert (q - 360 * inject_Z 0 == q)%Q as E
      by (change (inject_Z 0) with 0%Q; ring).
  destruct (Qltb (q - 360 * inject_Z 0) 0) eqn:B.
  - apply Qltb_true in B. lra.
  - exact E.
Qed.

(** Between 0 and 360 the index is one more than the number of whole
    22.5-degree steps below the angle (modulo 16): rounding after the
    11.25 shift moves every sector boundary onto a multiple of 22.5. *)
Lemma cardinal_index_in_range (q : Q) :
  (0 <= q)%Q -> (q < 360)%Q ->
  cardinal_index q = Z.rem (Qfloor (q / (45 # 2)) + 1) 16.
Proof.
  intros H0 H1. unfold cardinal_index. f_equal.
  unfold Math_round. apply Qfloor_unique.
  - rewrite (normalize_degrees_in_range q H0 H1).
    assert (Hf := Qfloor_le (q / (45 # 2))).
    rewrite inject_Z_plus. change (inject_Z 1) with 1%Q.
    unfold Qdiv in *. change (/ (45 # 2))%Q with (2 # 45)%Q in *. lra.
  - rewrite (normalize_degrees_in_range q H0 H1).
    assert (Hf := Qlt_floor (q / (45 # 2))).
    rewrite !inject_Z_plus in *. change (inject_Z 1) with 1%Q in *.
    unfold Qdiv in *. change (/ (45 # 2))%Q with (2 # 45)%Q in *. lra.
Qed.

(** The angles answered "N": those from 337.5 up to 360, not the band of
    11.25 degrees on either side of north. *)
Lemma degreesToCardinal_north_sector (q : Q) :
  (0 <= q)%Q -> (q < 360)%Q ->
  (degreesToCardinal (Num q) = "N"%string <-> ((675 # 2) <= q)%Q).
Proof.
  intros H0 H1. unfold degreesToCardinal.
  rewrite (cardinal_index_in_range q H0 H1).
  assert (Hl := Qfloor_le (q / (45 # 2))).
  assert (Hu := Qlt_floor (q / (45 # 2))).
  set (k := Qfloor (q / (45 # 2))) in *.
  unfold Qdiv in Hl, Hu. change (/ (45 # 2))%Q with (2 # 45)%Q in *.
  rewrite inject_Z_plus in Hu. change (inject_Z 1) with 1%Q in Hu.
  assert (0 <= k < 16) as Hk.
  { split.
    - apply Z.lt_succ_r. rewrite Zlt_Qlt. unfold Z.succ.
      rewrite inject_Z_plus. change (inject_Z 1) with 1%Q.
      change (inject_Z 0) with 0%Q. lra.
    - rewrite Zlt_Qlt. change (inject_Z 16) with 16%Q. lra. }
  split.
  - intros HN.
    assert (k = 15) as Hk15.
    { assert (k = 0 \/ k = 1 \/ k = 2 \/ k = 3 \/ k = 4 \/ k = 5 \/ k = 6
              \/ k = 7 \/ k = 8 \/ k = 9 \/ k = 10 \/ k = 11 \/ k = 12
              \/ k = 13 \/ k = 14 \/ k = 15) as Hcases by lia.
      repeat (destruct Hcases as [E|Hcases];
              [rewrite E in HN; try discriminate HN; try exact E|]).
      rewrite Hcases in HN; try discriminate HN; exact Hcases. }
    rewrite Hk15 in Hl. change (inject_Z 15) with 15%Q in Hl. lra.
  - intros Hq.
    assert (k = 15) as ->.
    { assert (14 < k); [|lia]. rewrite Zlt_Qlt.
      change (inject_Z 14) with 14%Q. lra. }
    reflexivity.
Qed.

(* ------------------------------------------------------------------ *)
(** *** The transformer *)

Import Weather Transformer.

Lemma missingFields_nil (obs : observation) :
  missingFields obs = [] <->
  nullish (temperature obs) || nullish (relativeHumidity obs)
  || nullish (windSpeed obs) = false.
Proof.
  unfold missingFields. simpl.
  destruct (nullish (temperature obs)),
           (nullish (relativeHumidity obs)),
           (nullish (windSpeed obs)); simpl; split; congruence.
Qed.

(** C7: the transformer stops with the missing-field error exactly when
    temperature, humidity or wind speed is [null] or [undefined]; with the
    three present, a failure can only be a schema violation. *)
Theorem transformer_missing_field_iff :
  forall (now : Z) (obs : observation) (opts : options),
    (exists missing,
        transformToWildfireSchema now obs opts
        = inl (MissingRequiredFields missing))
    <->
    nullish (temperature obs) || nullish (relativeHumidity obs)
    || nullish (windSpeed obs) = true.
Proof.
  intros now obs opts. unfold transformToWildfireSchema.
  destruct (missingFields obs) as [|f fs] eqn:E.
  - apply missingFields_nil in E. rewrite E. split.
    + intros [missing H].
      destruct (schemaIssues (buildRisks now obs opts)); discriminate.
    + discriminate.
  - split.
    + intros _.
      destruct (nullish (temperature obs) || nullish (relativeHumidity obs)
                || nullish (windSpeed obs)) eqn:N; [reflexivity|].
      apply missingFields_nil in N. congruence.
    + intros _. exists (f :: fs). reflexivity.
Qed.

Lemma indexed_issues_nonempty {A : Type} (bad : A -> bool)
      (at_ : nat -> issue) (l : list A) :
  forall i x, In x l -> bad x = true -> indexed_issues bad at_ i l <> [].
Proof.
  induction l as [|y l IH]; intros i x Hin Hbad; [contradiction|].
  simpl. destruct (bad y) eqn:By; [discriminate|].
  destruct Hin as [->|Hin]; [congruence|].
  simpl. exact (IH (S i) x Hin Hbad).
Qed.

Lemma schemaIssues_detected (r : weatherRisks) (d : detectedChange) :
  In (DetectedEntry d) (extreme_changes r) -> schemaIssues r <> [].
Proof.
  intros Hin Hnil. unfold schemaIssues in Hnil.
  repeat (apply app_eq_nil in Hnil; destruct Hnil as [_ Hnil]).
  revert Hnil.
  apply (indexed_issues_nonempty _ _ _ 0%nat (DetectedEntry d)); auto.
Qed.

(** C2 (as the code behaves): the objects the scan of the history returns
    are pushed into [extreme_changes] in their own shape, which the schema
    rejects; whenever the scan detects a change, the transformer returns
    no document. *)
Theorem transformer_rejects_detected_changes :
  forall (now : Z) (obs : observation) (opts : options),
    detectExtremeChanges (historicalData opts) <> [] ->
    forall doc, transformToWildfireSchema now obs opts <> inr doc.
Proof.
  intros now obs opts Hdet doc. unfold transformToWildfireSchema.
  destruct (missingFields obs); [|discriminate].
  destruct (detectExtremeChanges (historicalData opts)) as [|d ds] eqn:E;
    [congruence|].
  assert (schemaIssues (buildRisks now obs opts) <> []) as Hne.
  { apply (schemaIssues_detected _ d). simpl.
    unfold transformExtremeChanges.
    destruct (historicalData opts) as [|p ps] eqn:Eh.
    - discriminate E.
    - rewrite E. simpl. left. reflexivity. }
  destruct (schemaIssues (buildRisks now obs opts)); [congruence|discriminate].
Qed.

Lemma transformer_rejects_detected_changes_witness :
  detectExtremeChanges
    (historicalData (mkOptions [] Inputs.rising_wind)) <> []
  /\ forall doc,
      transformToWildfireSchema 0 Inputs.mild
                                (mkOptions [] Inputs.rising_wind)
      <> inr doc.
Proof.
  split.
  - vm_compute. discriminate.
  - apply (transformer_rejects_detected_changes 0 Inputs.mild
             (mkOptions [] Inputs.rising_wind)).
    vm_compute. discriminate.
Defined.

Lemma strongestWind_num (obs : observation) (w : Q) :
  windSpeed obs = Num w ->
  strongestWind obs = Num (Qmax w (gustOrZero (windGust obs))).
Proof.
  intros Hw. unfold strongestWind, Math_max, or_else, gustOrZero, Qmax.
  rewrite Hw. simpl.
  destruct (windGust obs) as [| |q]; simpl; try reflexivity.
  destruct (Qeq_bool q 0); reflexivity.
Qed.

Lemma isRedFlag_relaxed_iff (h m : Q) :
  isRedFlagConditions (Num h) (Num m) false = true <-> relaxedRedFlag h m.
Proof.
  unfold isRedFlagConditions, relaxedRedFlag, lt, gt, of_Z. simpl.
  rewrite orb_true_iff, !andb_true_iff, !Qltb_true. reflexivity.
Qed.

Lemma watch_pair_iff (h w : Q) :
  lt (Num h) (of_Z 25) && gt (Num w) (of_Z 15) = true <-> watchTier h w.
Proof.
  unfold watchTier, lt, gt, of_Z. simpl.
  rewrite andb_true_iff, !Qltb_true. reflexivity.
Qed.

(** C1 (amended): without a fire-weather alert, the list holds exactly one
    "Red Flag" entry iff the relaxed red-flag test holds on the stronger of
    wind speed and gust, otherwise exactly one "Watch" entry iff humidity is
    below 25 and wind speed above 15, otherwise nothing, each entry valid
    from now for six hours; with such alerts, the list is their translation,
    in order, and no threshold entry is added. *)
Theorem transformRedFlagWarnings_tiers :
  forall (now : Z) (obs : observation) (alerts : list alert) (h w : Q),
    relativeHumidity obs = Num h ->
    windSpeed obs = Num w ->
    let m := Qmax w (gustOrZero (windGust obs)) in
    let warnings := transformRedFlagWarnings now obs alerts in
    (filter isFireAlert alerts = [] ->
     (map w_level warnings = [RedFlag] <-> relaxedRedFlag h m)
     /\ (map w_level warnings = [Watch]
         <-> ~ relaxedRedFlag h m /\ watchTier h w)
     /\ (warnings = [] <-> ~ relaxedRedFlag h m /\ ~ watchTier h w)
     /\ Forall (fun x => start_time x = Clock now
                         /\ end_time x = Clock (now + six_hours))
               warnings)
    /\ (filter isFireAlert alerts <> [] ->
        warnings = map (alertWarning now) (filter isFireAlert alerts)
        /\ map w_level warnings
           = map alertLevel (filter isFireAlert alerts)).
Proof.
  intros now obs alerts h w Hh Hw m warnings. subst warnings.
  unfold transformRedFlagWarnings. split.
  - intros ->. simpl. unfold thresholdWarnings.
    rewrite (strongestWind_num obs w Hw), Hh, Hw. fold m.
    assert (Hr := isRedFlag_relaxed_iff h m).
    assert (Hwt := watch_pair_iff h w).
    destruct (isRedFlagConditions (Num h) (Num m) false).
    + assert (relaxedRedFlag h m) as R by (apply Hr; reflexivity).
      simpl. split; [|split; [|split]];
        try (split; intros; try reflexivity; try discriminate; tauto).
      constructor; [split; reflexivity|constructor].
    + assert (~ relaxedRedFlag h m) as R
          by (intros R; apply Hr in R; discriminate).
      destruct (lt (Num h) (of_Z 25) && gt (Num w) (of_Z 15)).
      * assert (watchTier h w) as W by (apply Hwt; reflexivity).
        simpl. split; [|split; [|split]];
          try (split; intros; try reflexivity; try discriminate; tauto).
        constructor; [split; reflexivity|constructor].
      * assert (~ watchTier h w) as W
            by (intros W; apply Hwt in W; discriminate).
        simpl. split; [|split; [|split]];
          try (split; intros; try reflexivity; try discriminate; tauto).
        constructor.
  - intros Hne. destruct (filter isFireAlert alerts) as [|a l];
      [congruence|].
    split; [reflexivity|]. simpl. f_equal. rewrite map_map. reflexivity.
Qed.

Lemma transformRedFlagWarnings_tiers_witness :
  relativeHumidity Inputs.dry_breezy = Num 18
  /\ windSpeed Inputs.dry_breezy = Num 22
  /\ filter isFireAlert [] = []
  /\ map w_level (transformRedFlagWarnings 0 Inputs.dry_breezy [])
     = [RedFlag]
  /\ transformRedFlagWarnings 0 Inputs.dry_breezy [Inputs.red_flag_alert]
     = [alertWarning 0 Inputs.red_flag_alert].
Proof.
  split; [reflexivity|]. split; [reflexivity|]. split; [reflexivity|].
  split.
  - apply (proj1 (transformRedFlagWarnings_tiers
                    0 Inputs.dry_breezy [] 18 22 eq_refl eq_refl)
                 eq_refl).
    right. split; reflexivity.
  - apply (proj2 (transformRedFlagWarnings_tiers
                    0 Inputs.dry_breezy [Inputs.red_flag_alert] 18 22
                    eq_refl eq_refl)).
    vm_compute. discriminate.
Defined.

(** C1, counterexample: at 18 % humidity and 22 mph wind, with no gust
    reading and no alert, the code emits one "Red Flag" entry, where the
    strict pair of the claim (humidity < 15 and wind > 25) yields "Watch". *)
Lemma transformRedFlagWarnings_strict_counterexample :
  filter isFireAlert [] = []
  /\ map w_level (transformRedFlagWarnings 0 Inputs.dry_breezy [])
     = [RedFlag]
  /\ claimedThresholdLevels Inputs.dry_breezy = [Watch].
Proof. repeat split. Qed.

(* ------------------------------------------------------------------ *)
(** *** The cache *)

Section CacheFacts.

Context {V : Type}.
Implicit Types (c : Cache.t V) (s : list (string * Cache.entry V)).

Lemma map_get_In key s e :
  Cache.map_get key s = Some e -> In (key, e) s.
Proof.
  induction s as [|[k e0] s IH]; simpl; [discriminate|].
  destruct (String.eqb_spec k key) as [->|Hne].
  - intros [= ->]. left. reflexivity.
  - intros H. right. exact (IH H).
Qed.

Lemma map_get_map_set key e s :
  Cache.map_get key (Cache.map_set key e s) = Some e.
Proof.
  induction s as [|[k e0] s IH]; simpl.
  - rewrite String.eqb_refl. reflexivity.
  - destruct (String.eqb k key) eqn:E; simpl; rewrite E; auto.
Qed.

Lemma map_set_absent key e s :
  Cache.map_has key s = false ->
  Cache.map_set key e s = s ++ [(key, e)].
Proof.
  unfold Cache.map_has.
  induction s as [|[k e0] s IH]; simpl; [reflexivity|].
  destruct (String.eqb k key); [discriminate|].
  intros H. rewrite (IH H). reflexivity.
Qed.

Lemma map_set_present key e s :
  Cache.map_has key s = true ->
  map fst (Cache.map_set key e s) = map fst s.
Proof.
  unfold Cache.map_has.
  induction s as [|[k e0] s IH]; simpl; [discriminate|].
  destruct (String.eqb k key); simpl; [reflexivity|].
  intros H. rewrite (IH H). reflexivity.
Qed.

(** What [get] returns: the stored payload, as long as the instant is
    not past the expiry instant. *)
Lemma get_visible_iff now key c v :
  fst (Cache.get now key c) = Some v <->
  exists e, Cache.map_get key (Cache.store c) = Some e
            /\ Cache.e_value e = v /\ now <= Cache.expiresAt e.
Proof.
  unfold Cache.get.
  destruct (Cache.map_get key (Cache.store c)) as [e|].
  - destruct (Z.gtb_spec now (Cache.expiresAt e)); simpl; split.
    + discriminate.
    + intros [e' [[= <-] [_ Hle]]]. lia.
    + intros [= <-]. exists e. repeat split; auto; lia.
    + intros [e' [[= <-] [<- _]]]. reflexivity.
  - simpl. split; [discriminate|]. intros [e [H _]]. discriminate.
Qed.

(** The loop of [_evictLRU] selects a stored key whose last access is
    the least. *)
Lemma lru_fold_spec s :
  match fold_left (Cache.lru_step V) s (None, None) with
  | (Some k, Some t) =>
      (exists e, In (k, e) s /\ Cache.lastAccessed e = t)
      /\ (forall k' e', In (k', e') s -> t <= Cache.lastAccessed e')
  | (None, None) => s = []
  | _ => False
  end.
Proof.
  induction s as [|[k1 e1] s IH] using rev_ind; [reflexivity|].
  rewrite fold_left_app. simpl.
  destruct (fold_left (Cache.lru_step V) s (None, None))
    as [[k|] [t|]]; try contradiction.
  - destruct IH as [[e [Hin Ht]] Hmin].
    unfold Cache.lru_step. simpl.
    destruct (Z.ltb_spec (Cache.lastAccessed e1) t).
    + split.
      * exists e1. split; [apply in_or_app; right; left|]; reflexivity.
      * intros k' e' H'. apply in_app_or in H'.
        destruct H' as [H'|[[= <- <-]|[]]]; [|lia].
        specialize (Hmin _ _ H'). lia.
    + split.
      * exists e. split; [apply in_or_app; left; exact Hin|exact Ht].
      * intros k' e' H'. apply in_app_or in H'.
        destruct H' as [H'|[[= <- <-]|[]]]; [eauto|lia].
  - subst s. unfold Cache.lru_step. simpl. split.
    + exists e1. split; [left|]; reflexivity.
    + intros k' e' [[= <- <-]|[]]. lia.
Qed.

Lemma oldestKey_least s k :
  Cache.oldestKey s = Some k ->
  exists e, In (k, e) s
            /\ forall k' e', In (k', e') s ->
                             Cache.lastAccessed e <= Cache.lastAccessed e'.
Proof.
  unfold Cache.oldestKey. intros H.
  assert (Hs := lru_fold_spec s).
  destruct (fold_left (Cache.lru_step V) s (None, None))
    as [[k0|] [t|]]; try contradiction; simpl in H; try discriminate.
  injection H as ->.
  destruct Hs as [[e [Hin <-]] Hmin].
  exists e. split; [exact Hin|]. exact Hmin.
Qed.

(** The part of the eviction rule the code does implement: a full store
    whose least recently used key is a non-empty string loses exactly
    that entry before the new key is appended, and an existing key is
    replaced where it stands. *)
Lemma set_evicts_least_recent now key v ttl c k :
  Cache.maxSize c <= Cache.size c ->
  Cache.map_has key (Cache.store c) = false ->
  Cache.oldestKey (Cache.store c) = Some k ->
  k <> EmptyString ->
  Cache.store (Cache.set now key v ttl c)
  = Cache.map_delete k (Cache.store c)
    ++ [(key, {| Cache.e_value := v; Cache.createdAt := now;
                 Cache.lastAccessed := now;
                 Cache.expiresAt := now + Cache.effectiveTTL ttl c;
                 Cache.hits := 0 |})].
Proof.
  intros Hfull Habsent Hold Hk. unfold Cache.set.
  rewrite Habsent. simpl.
  destruct (Z.geb_spec (Cache.size c) (Cache.maxSize c)); [|lia].
  simpl. unfold Cache._evictLRU. rewrite Hold.
  destruct k as [|a k']; [congruence|]. simpl.
  apply map_set_absent. unfold Cache.map_has, Cache.map_delete.
  clear - Habsent. unfold Cache.map_has in Habsent.
  induction (Cache.store c) as [|[k1 e1] s IH]; simpl in *; [reflexivity|].
  destruct (String.eqb k1 key) eqn:E; [discriminate|].
  destruct (negb (String.eqb k1 (String a k'))); simpl; auto.
  rewrite E. auto.
Qed.

Lemma set_existing_key_in_place now key v ttl c :
  Cache.map_has key (Cache.store c) = true ->
  map fst (Cache.store (Cache.set now key v ttl c))
  = map fst (Cache.store c).
Proof.
  intros H. unfold Cache.set. rewrite H, andb_false_r. simpl.
  apply map_set_present. exact H.
Qed.

End CacheFacts.

(** C4 (as the code behaves): [get] tests [Date.now() > expiresAt], so at the
    expiry instant itself the entry is still returned, although
    [getStats] already counts it as expired. *)
Theorem Cache_get_at_expiry_instant_hits :
  forall (V : Type) (c : Cache.t V) (key : string) (e : Cache.entry V),
    Cache.map_get key (Cache.store c) = Some e ->
    fst (Cache.get (Cache.expiresAt e) key c) = Some (Cache.e_value e)
    /\ 1 <= Cache.expiredEntries (Cache.getStats (Cache.expiresAt e) c).
Proof.
  intros V c key e H. split.
  - apply get_visible_iff. exists e. repeat split; auto; lia.
  - unfold Cache.getStats. simpl.
    apply map_get_In in H.
    apply (in_map snd) in H. simpl in H.
    match goal with
    | |- 1 <= Z.of_nat (List.length ?l) =>
        assert (In e l) as Hin
            by (apply filter_In; split; [exact H|apply Z.geb_le; lia]);
        destruct l; [contradiction|cbn [List.length]; lia]
    end.
Qed.

Lemma Cache_get_at_expiry_instant_hits_witness :
  Cache.map_get "k" (Cache.store Inputs.one_entry)
  = Some (Cache.mkEntry 7 0 0 5 0)
  /\ fst (Cache.get 5 "k" Inputs.one_entry) = Some 7
  /\ 1 <= Cache.expiredEntries (Cache.getStats 5 Inputs.one_entry).
Proof.
  split; [reflexivity|].
  exact (Cache_get_at_expiry_instant_hits
           Z Inputs.one_entry "k" (Cache.mkEntry 7 0 0 5 0) eq_refl).
Defined.

(** C5 (as the code behaves): [_evictLRU] deletes only when [oldestKey] is
    truthy; when the least recently used key is the empty string nothing
    is evicted, and [set] of a new key makes a full store grow. *)
Theorem Cache_set_keeps_empty_oldest_key :
  forall (V : Type) (c : Cache.t V) (now : Z) (key : string) (v : V)
         (ttl : option Z),
    Cache.maxSize c <= Cache.size c ->
    Cache.map_has key (Cache.store c) = false ->
    Cache.oldestKey (Cache.store c) = Some EmptyString ->
    (exists e, Cache.store (Cache.set now key v ttl c)
               = Cache.store c ++ [(key, e)])
    /\ Cache.size (Cache.set now key v ttl c) = Cache.size c + 1
    /\ Cache.maxSize c < Cache.size (Cache.set now key v ttl c).
Proof.
  intros V c now key v ttl Hfull Habsent Hold.
  assert (Cache.store (Cache.set now key v ttl c)
          = Cache.store c
            ++ [(key, {| Cache.e_value := v; Cache.createdAt := now;
                         Cache.lastAccessed := now;
                         Cache.expiresAt := now + Cache.effectiveTTL ttl c;
                         Cache.hits := 0 |})]) as Hstore.
  { unfold Cache.set. rewrite Habsent. simpl.
    destruct (Z.geb_spec (Cache.size c) (Cache.maxSize c)); [|lia].
    simpl. unfold Cache._evictLRU. rewrite Hold.
    apply map_set_absent. exact Habsent. }
  assert (Cache.size (Cache.set now key v ttl c) = Cache.size c + 1) as Hsz.
  { unfold Cache.size. rewrite Hstore, length_app. simpl. lia. }
  split; [eexists; exact Hstore|]. split; [exact Hsz|]. lia.
Qed.

Lemma Cache_set_keeps_empty_oldest_key_witness :
  Cache.maxSize Inputs.empty_key_full <= Cache.size Inputs.empty_key_full
  /\ Cache.map_has "a" (Cache.store Inputs.empty_key_full) = false
  /\ Cache.oldestKey (Cache.store Inputs.empty_key_full) = Some EmptyString
  /\ Cache.size (Cache.set 1 "a" 8 (Some 5) Inputs.empty_key_full) = 2.
Proof.
  split; [vm_compute; discriminate|].
  split; [reflexivity|]. split; [reflexivity|].
  apply (Cache_set_keeps_empty_oldest_key
           Z Inputs.empty_key_full 1 "a" 8 (Some 5)).
  - vm_compute. discriminate.
  - reflexivity.
  - reflexivity.
Defined.

(* ------------------------------------------------------------------ *)
(** *** The coordinator *)

Section FailoverFacts.

Import ClientManager.

Context {D E : Type}.
Variable stationId : string.

Implicit Types (clients pre post : list (provider D E))
         (w : world D) (lastError : option E).

Abbreviation fails := (fun q : provider D E => succeeds q stationId = false).
Abbreviation call := (fun q : provider D E => (name q, stationId)).

Lemma asked_prefix clients :
  exists n, asked clients stationId = firstn n clients.
Proof.
  induction clients as [|p rest [n IH]]; [exists 0%nat; reflexivity|].
  simpl. destruct (snd (fetchCurrent p stationId)).
  - exists (S n). simpl. rewrite IH. reflexivity.
  - exists 1%nat. reflexivity.
Qed.

Lemma asked_until_success pre p post d :
  Forall fails pre ->
  snd (fetchCurrent p stationId) = inr d ->
  asked (pre ++ p :: post) stationId = pre ++ [p].
Proof.
  intros Hpre Hp. induction Hpre as [|q pre Hq _ IH]; simpl.
  - rewrite Hp. reflexivity.
  - unfold succeeds in Hq.
    destruct (snd (fetchCurrent q stationId)); [|discriminate].
    rewrite IH. reflexivity.
Qed.

Lemma asked_all_fail clients :
  Forall fails clients -> asked clients stationId = clients.
Proof.
  intros H. induction H as [|q rest Hq _ IH]; simpl; [reflexivity|].
  unfold succeeds in Hq.
  destruct (snd (fetchCurrent q stationId)); [|discriminate].
  rewrite IH. reflexivity.
Qed.

Lemma tryClients_calls clients :
  forall lastError w,
    calls (snd (tryClients clients stationId lastError w))
    = calls w ++ map call (asked clients stationId).
Proof.
  induction clients as [|p rest IH]; intros lastError w; simpl.
  - rewrite app_nil_r. reflexivity.
  - destruct (fetchCurrent p stationId) as [elapsed [e|d]]; simpl.
    + rewrite IH. simpl. rewrite <- app_assoc. reflexivity.
    + reflexivity.
Qed.

Lemma tryClients_success pre p post d :
  Forall fails pre ->
  snd (fetchCurrent p stationId) = inr d ->
  forall lastError w,
  exists t,
    let result := mkSourced d (name p) false t in
    fst (tryClients (pre ++ p :: post) stationId lastError w)
    = inr result
    /\ clock (snd (tryClients (pre ++ p :: post) stationId lastError w))
       = t
    /\ cache (snd (tryClients (pre ++ p :: post) stationId lastError w))
       = Cache.set t (cacheKey stationId) result (Some 300000) (cache w).
Proof.
  intros Hpre Hp. induction Hpre as [|q pre Hq _ IH]; intros lastError w.
  - simpl. destruct (fetchCurrent p stationId) as [elapsed o].
    simpl in Hp. subst o. simpl.
    exists (clock w + elapsed). repeat split.
  - simpl. unfold succeeds in Hq.
    destruct (fetchCurrent q stationId) as [elapsed [e|d']];
      simpl in Hq; [|discriminate].
    destruct
      (IH (Some e)
          {| cache := cache w; clock := clock w + elapsed;
             calls := calls w ++ [(name q, stationId)] |})
      as [t Ht].
    exists t. exact Ht.
Qed.

Lemma tryClients_all_fail pre last e :
  Forall fails (pre ++ [last]) ->
  snd (fetchCurrent last stationId) = inl e ->
  forall lastError w,
    fst (tryClients (pre ++ [last]) stationId lastError w)
    = inl (Thrown e)
    /\ cache (snd (tryClients (pre ++ [last]) stationId lastError w))
       = cache w.
Proof.
  intros Hall Hlast.
  induction pre as [|q pre IH]; intros lastError w; simpl.
  - destruct (fetchCurrent last stationId) as [elapsed o].
    simpl in Hlast. subst o. simpl. split; reflexivity.
  - inversion Hall as [|? ? Hq Hrest]; subst.
    unfold succeeds in Hq.
    destruct (fetchCurrent q stationId) as [elapsed [e'|d']];
      simpl in Hq; [|discriminate].
    exact (IH Hrest (Some e')
              {| cache := cache w; clock := clock w + elapsed;
                 calls := calls w ++ [(name q, stationId)] |}).
Qed.

Lemma get_after_set (c : Cache.t (sourced D)) t key v :
  fst (Cache.get t key (Cache.set t key v (Some 300000) c)) = Some v.
Proof.
  apply get_visible_iff. eexists. split.
  - unfold Cache.set. simpl. apply map_get_map_set.
  - simpl. split; [reflexivity|lia].
Qed.

(** C3: on a live cache entry the cached value is returned and no
    provider is called; otherwise the providers are asked in list order,
    each once, up to the first that answers, whose data is returned
    tagged with its name and cached; when all fail, the failure of the
    last one is propagated. *)
Theorem getCurrentObservation_failover :
  forall clients w,
    match Cache.get (clock w) (cacheKey stationId) (cache w) with
    | (Some v, c1) =>
        getCurrentObservation clients stationId w
        = (inr v, {| cache := c1; clock := clock w; calls := calls w |})
    | (None, c1) =>
        let r := fst (getCurrentObservation clients stationId w) in
        let w' := snd (getCurrentObservation clients stationId w) in
        calls w' = calls w ++ map call (asked clients stationId)
        /\ (exists n, asked clients stationId = firstn n clients)
        /\ (forall pre p post d,
               clients = pre ++ p :: post ->
               Forall fails pre ->
               snd (fetchCurrent p stationId) = inr d ->
               asked clients stationId = pre ++ [p]
               /\ exists t,
                   r = inr (mkSourced d (name p) false t)
                   /\ clock w' = t
                   /\ fst (Cache.get t (cacheKey stationId) (cache w'))
                      = Some (mkSourced d (name p) false t))
        /\ (forall pre last e,
               clients = pre ++ [last] ->
               Forall fails clients ->
               snd (fetchCurrent last stationId) = inl e ->
               asked clients stationId = clients
               /\ r = inl (Thrown e)
               /\ cache w' = c1)
    end.
Proof.
  intros clients w. unfold getCurrentObservation.
  destruct (Cache.get (clock w) (cacheKey stationId) (cache w))
    as [[v|] c1]; [reflexivity|].
  cbv zeta. split; [|split; [|split]].
  - rewrite tryClients_calls. reflexivity.
  - apply asked_prefix.
  - intros pre p post d -> Hpre Hp. split.
    + apply (asked_until_success pre p post d Hpre Hp).
    + destruct
        (tryClients_success
           pre p post d Hpre Hp None
           {| cache := c1; clock := clock w; calls := calls w |})
        as [t (Hr & Hc & Hcache)].
      exists t. split; [exact Hr|]. split; [exact Hc|].
      rewrite Hcache. apply get_after_set.
  - intros pre last e -> Hall Hlast. split.
    + apply asked_all_fail, Hall.
    + apply (tryClients_all_fail pre last e Hall Hlast None
               {| cache := c1; clock := clock w; calls := calls w |}).
Qed.

End FailoverFacts.

Lemma getCurrentObservation_failover_witness :
  fst (Cache.get 1000 (ClientManager.cacheKey "C5725")
                 (ClientManager.cache Inputs.cold_start)) = None
  /\ ClientManager.succeeds Inputs.primary "C5725" = false
  /\ snd (ClientManager.fetchCurrent Inputs.backup "C5725") = inr 11
  /\ fst (ClientManager.getCurrentObservation
            [Inputs.primary; Inputs.backup] "C5725" Inputs.cold_start)
     = inr (ClientManager.mkSourced 11 "mesowest" false 1070)
  /\ ClientManager.calls
       (snd (ClientManager.getCurrentObservation
               [Inputs.primary; Inputs.backup] "C5725" Inputs.cold_start))
     = [("synoptic", "C5725"); ("mesowest", "C5725")]%string.
Proof.
  split; [reflexivity|]. split; [reflexivity|]. split; [reflexivity|].
  assert (H := getCurrentObservation_failover
                 "C5725" [Inputs.primary; Inputs.backup] Inputs.cold_start).
  simpl Cache.get in H. cbv zeta in H.
  destruct H as (Hcalls & _ & Hok & _).
  split.
  - destruct (Hok [Inputs.primary] Inputs.backup [] 11 eq_refl
                  ltac:(repeat constructor) eq_refl)
      as (_ & t & Hr & Ht & _).
    rewrite Hr. rewrite <- Ht. reflexivity.
  - exact Hcalls.
Defined.

(* ------------------------------------------------------------------ *)
(** *** The fire-weather calculators *)

Lemma chandlerBand_below_25 (z : Z) :
  z < 25 -> chandlerBand (of_Z z) = Low.
Proof.
  intros H. unfold chandlerBand, ge, nle, of_Z. simpl.
  assert (forall k, 25 <= k -> Qle_bool (inject_Z k) (inject_Z z) = false)
    as Hk.
  { intros k Hk. apply Qle_bool_false. rewrite <- Zlt_Qlt. lia. }
  rewrite !Hk by lia. reflexivity.
Qed.

Section CalculatorFacts.

Context {M : MathLib}.
Local Open Scope Q_scope.

(** What the classification does, for every fuel moisture other than
    the number zero. *)
Lemma calculateFireDangerClass_cases (c : conditions) :
  truthy (c_fuelMoisture c) = negb (nullish (c_fuelMoisture c)) ->
  calculateFireDangerClass c
  = if relaxed_override c then Extreme
    else chandlerBand
           (of_result
              (calculateChandlerBurningIndex
                 (c_temperature c) (c_relativeHumidity c)
                 (c_fuelMoisture c))).
Proof.
  intros Hfm. unfold calculateFireDangerClass, relaxed_override.
  rewrite Hfm.
  destruct (lt (c_relativeHumidity c) (of_Z 10)
            || negb (nullish (c_fuelMoisture c))
               && lt (c_fuelMoisture c) (of_Z 5)); reflexivity.
Qed.

(** C8 (amended): the class is "Extreme" whenever humidity is below 10,
    or fuel moisture is present and below 5, or the relaxed red-flag
    test holds; where none of the three holds, the class is the band of
    the Chandler value.  Stated for fuel moisture absent or non-zero. *)
Theorem calculateFireDangerClass_overrides :
  forall c : conditions,
    truthy (c_fuelMoisture c) = negb (nullish (c_fuelMoisture c)) ->
    (relaxed_override c = true -> calculateFireDangerClass c = Extreme)
    /\ (relaxed_override c = false ->
        calculateFireDangerClass c
        = chandlerBand
            (of_result
               (calculateChandlerBurningIndex
                  (c_temperature c) (c_relativeHumidity c)
                  (c_fuelMoisture c)))).
Proof.
  intros c Hfm. rewrite (calculateFireDangerClass_cases c Hfm).
  split; intros ->; reflexivity.
Qed.

(** The Chandler value of 65 F, 18 % humidity and 75 % fuel moisture is
    below 25 for every [Math.pow] that puts [10^(-1.065)] between 0 and
    one tenth. *)
Lemma chandler_breezy_moist_fuel_low :
  0 <= Math_pow 10 (- 1.065) ->
  Math_pow 10 (- 1.065) <= 0.1 ->
  claimedFireDangerClass Inputs.breezy_moist_fuel = Low.
Proof.
  intros H0 H1. unfold claimedFireDangerClass.
  change (claimed_override Inputs.breezy_moist_fuel) with false.
  cbv iota. simpl c_temperature. simpl c_relativeHumidity.
  simpl c_fuelMoisture. unfold calculateChandlerBurningIndex, of_result.
  apply chandlerBand_below_25.
  apply Z.max_lub_lt; [lia|].
  apply Math_round_lt.
  rewrite (Math_pow_compat 10 10 (- 0.0142 * 75) (- 1.065))
    by reflexivity.
  rewrite !Qdiv_const. change (inject_Z 25) with 25. lra.
Qed.

(** C9 (as the code behaves): at 100 F, 100 % humidity and 30 mph wind the
    damping coefficient is negative, and so is the index returned, for
    every [Math] library within the stated bounds at the four points
    the computation visits. *)
Theorem calculateFosbergFFWI_negative :
  Math_pow 1 0.679 <= 1 ->
  Math_exp 0.1 <= 2 ->
  Math_exp (- 0.115) <= 0.9 ->
  30 <= Math_sqrt 901 ->
  exists z, calculateFosbergFFWI (Num 100) (Num 100) (Num 30) = Some z
            /\ (z < 0)%Z.
Proof.
  intros Hp He1 He2 Hs.
  assert (calculateEquilibriumMoistureContent 100 100 <= - 0.47) as Hemc.
  { unfold calculateEquilibriumMoistureContent.
    change (Qle_bool 0.1 (100 / 100) && Qle_bool (100 / 100) 1) with true.
    cbv iota.
    rewrite (Math_pow_compat (100 / 100) 1 0.679 0.679) by reflexivity.
    rewrite (Math_exp_compat (0.1 * (100 / 100)) 0.1) by reflexivity.
    rewrite (Math_exp_compat (- 0.115 * (100 / 100)) (- 0.115))
      by reflexivity.
    lra. }
  unfold calculateFosbergFFWI.
  change (Qmax 1 (Qmin 100 100)) with 100.
  change (Qmax 0 30) with 30.
  set (emc := calculateEquilibriumMoistureContent 100 100) in *.
  clearbody emc.
  eexists. split; [reflexivity|].
  apply Math_round_lt. change (inject_Z 0) with 0.
  rewrite (Math_sqrt_compat (1 + 30 * 30) 901) by reflexivity.
  destruct (Qle_bool emc 10) eqn:B.
  - set (eta := 0.03229 + 0.281073 * emc - 0.000578 * emc * 100).
    assert (eta <= - 0.07) as Heta by (subst eta; lra).
    assert (eta * Math_sqrt 901 <= eta * 30) by nra.
    lra.
  - apply Qle_bool_false in B. lra.
Qed.

(** The [null] result of the Fosberg index: exactly when an argument is
    [null] or [undefined]. *)
Lemma calculateFosbergFFWI_null_iff (t rh ws : value) :
  calculateFosbergFFWI t rh ws = None
  <-> nullish t || nullish rh || nullish ws = true.
Proof.
  unfold calculateFosbergFFWI.
  destruct t, rh, ws; simpl; split; congruence.
Qed.

End CalculatorFacts.

Lemma calculateFireDangerClass_overrides_witness :
  truthy (c_fuelMoisture Inputs.breezy_moist_fuel)
  = negb (nullish (c_fuelMoisture Inputs.breezy_moist_fuel))
  /\ relaxed_override Inputs.breezy_moist_fuel = true
  /\ calculateFireDangerClass (M := SeriesMath.seriesMath)
                              Inputs.breezy_moist_fuel
     = Extreme.
Proof.
  split; [reflexivity|]. split; [reflexivity|].
  apply (proj1 (calculateFireDangerClass_overrides
                  (M := SeriesMath.seriesMath)
                  Inputs.breezy_moist_fuel eq_refl)).
  reflexivity.
Defined.

(** C8, counterexample: at 65 F, 18 % humidity, 22 mph wind and 75 % fuel
    moisture none of the three overrides of the claim holds (the strict
    red-flag test needs humidity below 15), and the band of the Chandler
    value is "Low"; the code returns "Extreme", through the relaxed
    red-flag test. *)
Lemma calculateFireDangerClass_strict_counterexample :
  claimed_override Inputs.breezy_moist_fuel = false
  /\ (forall M : MathLib,
         calculateFireDangerClass Inputs.breezy_moist_fuel = Extreme)
  /\ (forall M : MathLib,
         (0 <= Math_pow 10 (- 1.065))%Q ->
         (Math_pow 10 (- 1.065) <= 0.1)%Q ->
         claimedFireDangerClass Inputs.breezy_moist_fuel = Low)
  /\ calculateFireDangerClass (M := SeriesMath.seriesMath)
                              Inputs.breezy_moist_fuel
     <> claimedFireDangerClass (M := SeriesMath.seriesMath)
                               Inputs.breezy_moist_fuel.
Proof.
  split; [reflexivity|]. split; [intros M; reflexivity|].
  split; [intros M; apply chandler_breezy_moist_fuel_low|].
  vm_compute. discriminate.
Qed.

Lemma calculateFosbergFFWI_negative_witness :
  (Math_pow (MathLib := SeriesMath.seriesMath) 1 0.679 <= 1)%Q
  /\ (Math_exp (MathLib := SeriesMath.seriesMath) 0.1 <= 2)%Q
  /\ (Math_exp (MathLib := SeriesMath.seriesMath) (- 0.115) <= 0.9)%Q
  /\ (30 <= Math_sqrt (MathLib := SeriesMath.seriesMath) 901)%Q
  /\ exists z,
      calculateFosbergFFWI (M := SeriesMath.seriesMath)
                           (Num 100) (Num 100) (Num 30) = Some z
      /\ z < 0.
Proof.
  assert (Math_pow (MathLib := SeriesMath.seriesMath) 1 0.679 <= 1)%Q
    as Hp by (apply Qle_bool_iff; vm_compute; reflexivity).
  assert (Math_exp (MathLib := SeriesMath.seriesMath) 0.1 <= 2)%Q
    as He1 by (apply Qle_bool_iff; vm_compute; reflexivity).
  assert (Math_exp (MathLib := SeriesMath.seriesMath) (- 0.115) <= 0.9)%Q
    as He2 by (apply Qle_bool_iff; vm_compute; reflexivity).
  assert (30 <= Math_sqrt (MathLib := SeriesMath.seriesMath) 901)%Q
    as Hs by (apply Qle_bool_iff; vm_compute; reflexivity).
  repeat (split; [assumption|]).
  exact (calculateFosbergFFWI_negative
           (M := SeriesMath.seriesMath) Hp He1 He2 Hs).
Defined.

(* ------------------------------------------------------------------ *)
(** *** Closed evaluations *)

Example transformer_rising_wind_result :
  transformToWildfireSchema 0 Inputs.mild (mkOptions [] Inputs.rising_wind)
  = inl (SchemaViolation [AtExtremeChange 0]).
Proof. reflexivity. Qed.

Example fixture_station_document :
  exists r,
    transformToWildfireSchema 0 Inputs.monument_creek (mkOptions [] [])
    = inr r
    /\ (wind_speed r, wind_gusts r, wind_direction r)
       = (Some 28, Some 43, "NW"%string)
    /\ humidity_percent r = Some 13
    /\ map w_level (red_flag_warnings r) = [RedFlag]
    /\ map (fun c => match c with
                     | SchemaEntry parameter _ _ _ => parameter
                     | DetectedEntry _ => "detected"%string
                     end)
           (extreme_changes r)
       = ["wind"; "fuel_moisture"]%string.
Proof. eexists. split; [reflexivity|]. repeat split. Qed.

Example fosberg_series_values :
  calculateFosbergFFWI (M := SeriesMath.seriesMath)
                       (Num 100) (Num 100) (Num 30) = Some (-3)
  /\ calculateFosbergFFWI (M := SeriesMath.seriesMath)
                          (Num 90) (Num 80) (Num 40) = Some (-1)
  /\ calculateFosbergFFWI (M := SeriesMath.seriesMath)
                          (Num 95) (Num 10) (Num 35) = Some 1.
Proof. repeat split; vm_compute; reflexivity. Qed.

(* ================================================================== *)
(** ** Further properties of the cache *)

Section CacheLaws.

Context {V : Type}.
Implicit Types (c : Cache.t V) (s : list (string * Cache.entry V)).

Lemma map_get_map_set_other key k e s :
  k <> key ->
  Cache.map_get k (Cache.map_set key e s) = Cache.map_get k s.
Proof.
  intros Hne. induction s as [|[k1 e1] s IH]; simpl.
  - destruct (String.eqb_spec key k); [congruence|reflexivity].
  - destruct (String.eqb_spec k1 key) as [->|Hk1]; simpl.
    + destruct (String.eqb_spec key k); [congruence|reflexivity].
    + rewrite IH. reflexivity.
Qed.

Lemma map_get_map_delete key s :
  Cache.map_get key (Cache.map_delete key s) = None.
Proof.
  induction s as [|[k1 e1] s IH]; simpl; [reflexivity|].
  destruct (String.eqb_spec k1 key) as [->|Hne]; simpl; [exact IH|].
  destruct (String.eqb_spec k1 key); [congruence|exact IH].
Qed.

Lemma map_get_map_delete_other key k s :
  k <> key ->
  Cache.map_get k (Cache.map_delete key s) = Cache.map_get k s.
Proof.
  intros Hne. induction s as [|[k1 e1] s IH]; simpl; [reflexivity|].
  destruct (String.eqb_spec k1 key) as [->|Hk1]; simpl.
  - destruct (String.eqb_spec key k); [congruence|exact IH].
  - rewrite IH. reflexivity.
Qed.

Lemma map_get_None_notin key s :
  Cache.map_get key s = None <-> ~ In key (map fst s).
Proof.
  induction s as [|[k1 e1] s IH]; simpl; [tauto|].
  destruct (String.eqb_spec k1 key) as [->|Hne].
  - split; [discriminate|]. intros H. exfalso. apply H. left. reflexivity.
  - rewrite IH. split; [intros H [E|I]; [congruence|tauto]|tauto].
Qed.

Lemma In_map_get key e s :
  NoDup (map fst s) -> In (key, e) s -> Cache.map_get key s = Some e.
Proof.
  induction s as [|[k1 e1] s IH]; simpl; intros Hnd Hin; [contradiction|].
  inversion Hnd as [|? ? Hnotin Hnd']; subst.
  destruct Hin as [[= -> ->]|Hin].
  - rewrite String.eqb_refl. reflexivity.
  - destruct (String.eqb_spec k1 key) as [->|Hne].
    + exfalso. apply Hnotin. apply (in_map fst) in Hin. exact Hin.
    + apply IH; assumption.
Qed.

Lemma keys_map_delete key s :
  map fst (Cache.map_delete key s)
  = filter (fun k => negb (String.eqb k key)) (map fst s).
Proof.
  induction s as [|[k1 e1] s IH]; simpl; [reflexivity|].
  destruct (String.eqb k1 key); simpl; rewrite IH; reflexivity.
Qed.

Lemma keys_map_set key e s :
  map fst (Cache.map_set key e s)
  = if Cache.map_has key s then map fst s else map fst s ++ [key].
Proof.
  destruct (Cache.map_has key s) eqn:H.
  - apply map_set_present, H.
  - rewrite (map_set_absent key e s H), map_app. reflexivity.
Qed.

Lemma NoDup_filter_keys (p : string -> bool) (l : list string) :
  NoDup l -> NoDup (filter p l).
Proof.
  induction 1 as [|x l Hx Hnd IH]; simpl; [constructor|].
  destruct (p x); [|exact IH].
  constructor; [|exact IH]. intros Hin. apply filter_In in Hin. tauto.
Qed.

Lemma map_has_false_notin key s :
  Cache.map_has key s = false <-> ~ In key (map fst s).
Proof.
  unfold Cache.map_has. rewrite <- map_get_None_notin.
  destruct (Cache.map_get key s); split; congruence.
Qed.

Lemma NoDup_map_set key e s :
  NoDup (map fst s) -> NoDup (map fst (Cache.map_set key e s)).
Proof.
  intros Hnd. rewrite keys_map_set.
  destruct (Cache.map_has key s) eqn:H; [exact Hnd|].
  apply map_has_false_notin in H.
  apply NoDup_app; [exact Hnd|repeat constructor; intros []|].
  intros x Hx [<-|[]]. exact (H Hx).
Qed.

(** X1: a value stored by [set] at instant [t] is what [get] returns at
    every instant up to [t] plus the time to live in force, and a miss
    afterwards, whatever the store held before. *)
Theorem Cache_set_then_get :
  forall (c : Cache.t V) (t t' : Z) (key : string) (v : V)
         (ttl : option Z),
    fst (Cache.get t' key (Cache.set t key v ttl c))
    = if t' <=? t + Cache.effectiveTTL ttl c then Some v else None.
Proof.
  intros c t t' key v ttl. unfold Cache.get.
  replace (Cache.map_get key (Cache.store (Cache.set t key v ttl c)))
    with (Some (Cache.mkEntry v t t (t + Cache.effectiveTTL ttl c) 0))
    by (unfold Cache.set; simpl; rewrite map_get_map_set; reflexivity).
  cbn [Cache.expiresAt Cache.e_value].
  destruct (Z.gtb_spec t' (t + Cache.effectiveTTL ttl c));
    destruct (Z.leb_spec t' (t + Cache.effectiveTTL ttl c));
    try lia; reflexivity.
Qed.

Lemma filter_complement_length {A : Type} (p q : A -> bool) (l : list A) :
  (forall x, q x = negb (p x)) ->
  (List.length (filter p l) + List.length (filter q l))%nat
  = List.length l.
Proof.
  intros Hq. induction l as [|x l IH]; simpl; [reflexivity|].
  rewrite (Hq x). destruct (p x); simpl; lia.
Qed.

(** X2: in the statistics every stored entry is counted once, as active
    or as expired. *)
Theorem Cache_getStats_partition :
  forall (c : Cache.t V) (now : Z),
    Cache.activeEntries (Cache.getStats now c)
    + Cache.expiredEntries (Cache.getStats now c)
    = Cache.s_size (Cache.getStats now c).
Proof.
  intros c now. unfold Cache.getStats, Cache.size. simpl.
  rewrite <- Nat2Z.inj_add.
  rewrite (filter_complement_length
             (fun e => now <? Cache.expiresAt e)
             (fun e => now >=? Cache.expiresAt e)).
  - rewrite length_map. reflexivity.
  - intros e. destruct (Z.ltb_spec now (Cache.expiresAt e));
      destruct (Z.geb_spec now (Cache.expiresAt e)); simpl; lia.
Qed.

Lemma map_get_filter (p : string * Cache.entry V -> bool) key s :
  NoDup (map fst s) ->
  Cache.map_get key (filter p s)
  = match Cache.map_get key s with
    | Some e => if p (key, e) then Some e else None
    | None => None
    end.
Proof.
  induction s as [|[k1 e1] s IH]; simpl; intros Hnd; [reflexivity|].
  inversion Hnd as [|? ? Hnotin Hnd']; subst.
  destruct (String.eqb_spec k1 key) as [->|Hne].
  - destruct (p (key, e1)) eqn:P; simpl.
    + rewrite String.eqb_refl. reflexivity.
    + rewrite (IH Hnd').
      assert (Cache.map_get key s = None) as ->
          by (apply map_get_None_notin; exact Hnotin).
      reflexivity.
  - destruct (p (k1, e1)); simpl.
    + destruct (String.eqb_spec k1 key); [congruence|]. apply IH, Hnd'.
    + apply IH, Hnd'.
Qed.

(** X3: the periodic sweep changes no answer: at the instant of the sweep
    [get] and [has] return on the swept store what they return on the
    store as it was, and the sweep only removes entries. *)
Theorem Cache_cleanup_transparent :
  forall (c : Cache.t V) (now : Z) (key : string),
    NoDup (Cache.keys c) ->
    fst (Cache.get now key (Cache._cleanup now c))
    = fst (Cache.get now key c)
    /\ fst (Cache.has now key (Cache._cleanup now c))
       = fst (Cache.has now key c)
    /\ Cache.size (Cache._cleanup now c) <= Cache.size c.
Proof.
  intros c now key Hnd. unfold Cache.get, Cache.has, Cache._cleanup.
  cbn [Cache.store Cache.with_store].
  rewrite (map_get_filter _ key (Cache.store c) Hnd).
  destruct (Cache.map_get key (Cache.store c)) as [e|]; simpl.
  - destruct (now >? Cache.expiresAt e) eqn:E; simpl.
    + repeat split.
      unfold Cache.size. simpl. apply Nat2Z.inj_le, filter_length_le.
    + rewrite E. simpl. repeat split.
      unfold Cache.size. simpl. apply Nat2Z.inj_le, filter_length_le.
  - repeat split.
    unfold Cache.size. simpl. apply Nat2Z.inj_le, filter_length_le.
Qed.

Lemma NoDup_map_delete key s :
  NoDup (map fst s) -> NoDup (map fst (Cache.map_delete key s)).
Proof.
  intros H. rewrite keys_map_delete. apply NoDup_filter_keys, H.
Qed.

Lemma map_delete_length_present key s :
  In key (map fst s) ->
  (List.length (Cache.map_delete key s) < List.length s)%nat.
Proof.
  induction s as [|[k1 e1] s IH]; simpl; [intros []|].
  intros Hin. destruct (String.eqb_spec k1 key) as [->|Hne]; simpl.
  - assert (H := filter_length_le
                   (fun kv : string * Cache.entry V =>
                      negb (String.eqb (fst kv) key)) s).
    unfold Cache.map_delete. lia.
  - destruct Hin as [E|Hin]; [congruence|].
    specialize (IH Hin). unfold Cache.map_delete in *. lia.
Qed.

Lemma oldestKey_nonempty_store s :
  s <> [] -> exists k, Cache.oldestKey s = Some k /\ In k (map fst s).
Proof.
  intros Hs. unfold Cache.oldestKey.
  assert (H := lru_fold_spec s).
  destruct (fold_left (Cache.lru_step V) s (None, None))
    as [[k|] [t|]]; try contradiction.
  destruct H as [[e [Hin _]] _]. exists k. split; [reflexivity|].
  apply (in_map fst) in Hin. exact Hin.
Qed.

Lemma evictLRU_shrinks c :
  ~ In EmptyString (Cache.keys c) ->
  Cache.store c <> [] ->
  Cache.size (Cache._evictLRU c) < Cache.size c.
Proof.
  intros Hne Hs. unfold Cache._evictLRU.
  destruct (oldestKey_nonempty_store (Cache.store c) Hs) as [k [-> Hin]].
  destruct k as [|a k'].
  - exfalso. exact (Hne Hin).
  - unfold Cache.size. simpl. apply Nat2Z.inj_lt.
    apply map_delete_length_present, Hin.
Qed.

Lemma evictLRU_keys_subset c k :
  In k (Cache.keys (Cache._evictLRU c)) -> In k (Cache.keys c).
Proof.
  unfold Cache._evictLRU, Cache.keys.
  destruct (Cache.oldestKey (Cache.store c)) as [[|a k']|]; auto.
  simpl. rewrite keys_map_delete. intros H. apply filter_In in H. tauto.
Qed.

Lemma evictLRU_NoDup c :
  NoDup (Cache.keys c) -> NoDup (Cache.keys (Cache._evictLRU c)).
Proof.
  unfold Cache._evictLRU, Cache.keys.
  destruct (Cache.oldestKey (Cache.store c)) as [[|a k']|]; auto.
  simpl. apply NoDup_map_delete.
Qed.

Lemma size_map_set key e s :
  Z.of_nat (List.length (Cache.map_set key e s))
  = if Cache.map_has key s then Z.of_nat (List.length s)
    else Z.of_nat (List.length s) + 1.
Proof.
  assert (H := keys_map_set key e s).
  apply (f_equal (@List.length string)) in H.
  rewrite length_map in H. rewrite H.
  destruct (Cache.map_has key s).
  - rewrite length_map. reflexivity.
  - rewrite length_app, length_map. simpl. lia.
Qed.

(** X4: a store that holds no key twice, is within its capacity and does
    not hold the empty key stays so under [set] of a non-empty key (for a
    positive capacity), and under [get], [has], the sweep, [delete] and
    [clear]. *)
Theorem Cache_operations_keep_wellFormed :
  forall (c : Cache.t V) (now : Z) (key : string) (v : V)
         (ttl : option Z),
    Cache.wellFormed c ->
    0 < Cache.maxSize c ->
    (key <> EmptyString ->
     Cache.wellFormed (Cache.set now key v ttl c))
    /\ Cache.wellFormed (snd (Cache.get now key c))
    /\ Cache.wellFormed (snd (Cache.has now key c))
    /\ Cache.wellFormed (Cache._cleanup now c)
    /\ Cache.wellFormed (snd (Cache.delete key c))
    /\ Cache.wellFormed (Cache.clear c).
Proof.
  intros c now key v ttl (Hnd & Hsz & Hne) Hmax.
  assert (forall k, Cache.wellFormed
                      (Cache.with_store c (Cache.map_delete k (Cache.store c))))
    as Hdel.
  { intros k. unfold Cache.wellFormed, Cache.keys, Cache.size in *. simpl.
    split; [apply NoDup_map_delete, Hnd|]. split.
    - assert (H := filter_length_le
                     (fun kv : string * Cache.entry V =>
                        negb (String.eqb (fst kv) k)) (Cache.store c)).
      unfold Cache.map_delete. lia.
    - rewrite keys_map_delete. intros H. apply filter_In in H. tauto. }
  split; [|split; [|split; [|split; [|split]]]].
  - intros Hkey. unfold Cache.set.
    set (c1 := if (Cache.size c >=? Cache.maxSize c)
                  && negb (Cache.map_has key (Cache.store c))
               then Cache._evictLRU c else c).
    assert (NoDup (Cache.keys c1)) as Hnd1
        by (subst c1; destruct (_ && _); [apply evictLRU_NoDup|]; exact Hnd).
    assert (~ In EmptyString (Cache.keys c1)) as Hne1.
    { subst c1. destruct (_ && _); [|exact Hne].
      intros H. apply evictLRU_keys_subset in H. exact (Hne H). }
    assert (Cache.maxSize c1 = Cache.maxSize c) as Hm1.
    { subst c1. destruct (_ && _); [|reflexivity].
      unfold Cache._evictLRU.
      destruct (Cache.oldestKey (Cache.store c)) as [[|a k']|]; reflexivity. }
    assert (Z.of_nat (List.length (Cache.store c1))
            + (if Cache.map_has key (Cache.store c1) then 0 else 1)
            <= Cache.maxSize c) as Hsz1.
    { subst c1.
      destruct (Z.geb_spec (Cache.size c) (Cache.maxSize c)) as [Hfull|Hroom];
        destruct (Cache.map_has key (Cache.store c)) eqn:Hhas; simpl.
      - rewrite Hhas. unfold Cache.size in Hsz. lia.
      - assert (Cache.store c <> []) as Hs.
        { intros E. unfold Cache.size in Hfull. rewrite E in Hfull.
          simpl in Hfull. lia. }
        assert (Hlt := evictLRU_shrinks c Hne Hs).
        unfold Cache.size in *.
        destruct (Cache.map_has key (Cache.store (Cache._evictLRU c))); lia.
      - rewrite Hhas. unfold Cache.size in Hsz. lia.
      - rewrite Hhas. unfold Cache.size in *. lia. }
    unfold Cache.wellFormed, Cache.keys, Cache.size. simpl.
    split; [apply NoDup_map_set, Hnd1|]. split.
    + rewrite size_map_set, Hm1.
      destruct (Cache.map_has key (Cache.store c1)); lia.
    + rewrite keys_map_set.
      destruct (Cache.map_has key (Cache.store c1)); [exact Hne1|].
      intros H. apply in_app_or in H. destruct H as [H|[H|[]]];
        [exact (Hne1 H)|congruence].
  - unfold Cache.get.
    destruct (Cache.map_get key (Cache.store c)) as [e|] eqn:G;
      [|exact (conj Hnd (conj Hsz Hne))].
    destruct (now >? Cache.expiresAt e); simpl; [apply Hdel|].
    assert (Cache.map_has key (Cache.store c) = true) as Hhas
        by (unfold Cache.map_has; rewrite G; reflexivity).
    unfold Cache.wellFormed, Cache.keys, Cache.size in *. simpl.
    rewrite size_map_set, keys_map_set, Hhas. auto.
  - unfold Cache.has.
    destruct (Cache.map_get key (Cache.store c)) as [e|];
      [|exact (conj Hnd (conj Hsz Hne))].
    destruct (now >? Cache.expiresAt e); simpl;
      [apply Hdel|exact (conj Hnd (conj Hsz Hne))].
  - unfold Cache._cleanup, Cache.wellFormed, Cache.keys, Cache.size in *.
    simpl. set (p := fun kv : string * Cache.entry V =>
                       negb (now >? Cache.expiresAt (snd kv))).
    assert (forall l : list (string * Cache.entry V),
               NoDup (map fst l) -> NoDup (map fst (filter p l))) as Hf.
    { induction l as [|x l IH]; simpl; intros H; [constructor|].
      inversion H as [|? ? Hx Hl]; subst.
      destruct (p x); simpl; [|auto].
      constructor; [|auto]. intros Hin. apply Hx.
      apply in_map_iff in Hin. destruct Hin as [y [Ey Hy]].
      apply filter_In in Hy. rewrite <- Ey. apply in_map. tauto. }
    split; [apply Hf, Hnd|]. split.
    + assert (H := filter_length_le p (Cache.store c)). lia.
    + intros Hin. apply Hne. apply in_map_iff in Hin.
      destruct Hin as [y [Ey Hy]]. apply filter_In in Hy.
      rewrite <- Ey. apply in_map. tauto.
  - simpl. apply Hdel.
  - unfold Cache.clear, Cache.wellFormed, Cache.keys, Cache.size. simpl.
    split; [constructor|]. split; [lia|intros []].
Qed.

Lemma In_map_set_other key k e e0 s :
  k <> key -> In (k, e0) s -> In (k, e0) (Cache.map_set key e s).
Proof.
  intros Hne. induction s as [|[k1 e1] s IH]; simpl; [intros []|].
  intros [[= -> ->]|Hin].
  - destruct (String.eqb_spec k key); [congruence|]. left. reflexivity.
  - destruct (String.eqb k1 key); right; auto.
Qed.

Lemma map_has_map_set_keeps key k e s :
  Cache.map_has k s = true -> Cache.map_has k (Cache.map_set key e s) = true.
Proof.
  unfold Cache.map_has. intros H.
  destruct (String.eqb_spec k key) as [->|Hne].
  - rewrite map_get_map_set. reflexivity.
  - rewrite (map_get_map_set_other key k e s Hne). exact H.
Qed.

(** X5: at capacity, [set] of a key not yet stored removes exactly one
    entry, one whose last access is the least, appends the new entry and
    leaves the count unchanged. *)
Theorem Cache_set_evicts_exactly_lru :
  forall (c : Cache.t V) (now : Z) (key : string) (v : V)
         (ttl : option Z),
    Cache.wellFormed c ->
    0 < Cache.maxSize c ->
    Cache.size c = Cache.maxSize c ->
    Cache.map_has key (Cache.store c) = false ->
    exists k e,
      In (k, e) (Cache.store c)
      /\ (forall k' e', In (k', e') (Cache.store c) ->
                        Cache.lastAccessed e <= Cache.lastAccessed e')
      /\ Cache.store (Cache.set now key v ttl c)
         = Cache.map_delete k (Cache.store c)
           ++ [(key, Cache.mkEntry v now now
                                   (now + Cache.effectiveTTL ttl c) 0)]
      /\ Cache.map_get k (Cache.store (Cache.set now key v ttl c)) = None
      /\ Cache.size (Cache.set now key v ttl c) = Cache.size c.
Proof.
  intros c now key v ttl (Hnd & Hsz & Hne) Hmax Hfull Habsent.
  assert (Cache.store c <> []) as Hs.
  { intros E. unfold Cache.size in Hfull. rewrite E in Hfull.
    simpl in Hfull. lia. }
  destruct (oldestKey_nonempty_store (Cache.store c) Hs) as [k [Hold Hin]].
  assert (k <> EmptyString) as Hk by (intros ->; exact (Hne Hin)).
  destruct (oldestKey_least (Cache.store c) k Hold) as [e [He Hmin]].
  assert (Hstore := set_evicts_least_recent now key v ttl c k
                      ltac:(lia) Habsent Hold Hk).
  assert (k <> key) as Hkk.
  { intros ->. apply map_has_false_notin in Habsent. exact (Habsent Hin). }
  exists k, e. split; [exact He|]. split; [exact Hmin|].
  split; [exact Hstore|]. split.
  - rewrite Hstore.
    assert (forall l l' : list (string * Cache.entry V),
               Cache.map_get k l = None ->
               Cache.map_get k (l ++ l') = Cache.map_get k l') as Happ.
    { induction l as [|[k1 e1] l IH]; simpl; intros l' H; [reflexivity|].
      destruct (String.eqb k1 k); [discriminate|]. apply IH, H. }
    rewrite (Happ _ _ (map_get_map_delete k (Cache.store c))). simpl.
    destruct (String.eqb_spec key k); [congruence|reflexivity].
  - unfold Cache.size. rewrite Hstore, length_app. simpl.
    assert (S (List.length (Cache.map_delete k (Cache.store c)))
            = List.length (Cache.store c)) as Hlen.
    { clear - Hnd He. unfold Cache.keys in Hnd.
      induction (Cache.store c) as [|[k1 e1] s IH]; simpl in *;
        [contradiction|].
      inversion Hnd as [|? ? Hnotin Hnd']; subst.
      destruct He as [[= -> ->]|He].
      - rewrite String.eqb_refl. simpl. f_equal.
        assert (forall l : list (string * Cache.entry V),
                   ~ In k (map fst l) -> Cache.map_delete k l = l) as Hid.
        { induction l as [|[k2 e2] l IHl]; simpl; intros H; [reflexivity|].
          destruct (String.eqb_spec k2 k) as [->|Hn]; simpl.
          - exfalso. apply H. left. reflexivity.
          - f_equal. apply IHl. tauto. }
        rewrite (Hid s Hnotin). reflexivity.
      - destruct (String.eqb_spec k1 k) as [->|Hn]; simpl.
        + exfalso. apply Hnotin. apply (in_map fst) in He. exact He.
        + f_equal. apply IH; assumption. }
    lia.
Qed.

(** X6: reading protects from eviction: after a hit on a key, if some
    other stored entry was last accessed before that instant, the key is
    still stored after any following [set]. *)
Theorem Cache_get_protects_from_eviction :
  forall (c : Cache.t V) (now t2 : Z) (k key2 k' : string) (v v2 : V)
         (e' : Cache.entry V) (ttl2 : option Z),
    NoDup (Cache.keys c) ->
    fst (Cache.get now k c) = Some v ->
    In (k', e') (Cache.store c) ->
    k' <> k ->
    Cache.lastAccessed e' < now ->
    Cache.map_has k
      (Cache.store (Cache.set t2 key2 v2 ttl2 (snd (Cache.get now k c))))
    = true.
Proof.
  intros c now t2 k key2 k' v v2 e' ttl2 Hnd Hhit Hin Hkk Hold.
  unfold Cache.get in *.
  destruct (Cache.map_get k (Cache.store c)) as [e|] eqn:G;
    [|discriminate].
  destruct (now >? Cache.expiresAt e) eqn:X; [discriminate|].
  cbn [snd fst] in *.
  set (e1 := Cache.mkEntry (Cache.e_value e) (Cache.createdAt e) now
                           (Cache.expiresAt e) (Cache.hits e + 1)).
  set (c1 := Cache.with_store c (Cache.map_set k e1 (Cache.store c))).
  assert (Cache.map_has k (Cache.store c1) = true) as Hhas1.
  { unfold Cache.map_has. subst c1. simpl.
    rewrite map_get_map_set. reflexivity. }
  assert (NoDup (map fst (Cache.store c1))) as Hnd1
      by (subst c1; simpl; apply NoDup_map_set, Hnd).
  assert (Cache.oldestKey (Cache.store c1) <> Some k) as Hnot.
  { intros Ho. destruct (oldestKey_least _ _ Ho) as [e0 [Hin0 Hmin]].
    assert (Cache.map_get k (Cache.store c1) = Some e0) as G0
        by (apply In_map_get; assumption).
    subst c1. simpl in G0. rewrite map_get_map_set in G0.
    injection G0 as <-.
    assert (In (k', e') (Cache.map_set k e1 (Cache.store c))) as Hin'
        by (apply In_map_set_other; assumption).
    specialize (Hmin k' e' Hin'). simpl in Hmin. lia. }
  unfold Cache.set.
  destruct ((Cache.size c1 >=? Cache.maxSize c1)
            && negb (Cache.map_has key2 (Cache.store c1))).
  - simpl. apply map_has_map_set_keeps.
    unfold Cache._evictLRU.
    destruct (Cache.oldestKey (Cache.store c1)) as [[|a k1]|] eqn:Ho;
      try exact Hhas1.
    simpl. unfold Cache.map_has.
    rewrite map_get_map_delete_other by congruence. exact Hhas1.
  - simpl. apply map_has_map_set_keeps, Hhas1.
Qed.

(** X7: after [delete] the key is a miss and every other key answers as
    before; [delete] reports whether the key was stored, expired or not. *)
Theorem Cache_delete_then_get :
  forall (c : Cache.t V) (now : Z) (key k : string),
    fst (Cache.get now k (snd (Cache.delete key c)))
    = (if String.eqb k key then None else fst (Cache.get now k c))
    /\ (fst (Cache.delete key c) = true <-> In key (Cache.keys c)).
Proof.
  intros c now key k. split.
  - unfold Cache.delete, Cache.get. simpl.
    destruct (String.eqb_spec k key) as [->|Hne].
    + rewrite map_get_map_delete. reflexivity.
    + rewrite (map_get_map_delete_other key k _ Hne).
      destruct (Cache.map_get k (Cache.store c)) as [e|]; [|reflexivity].
      destruct (now >? Cache.expiresAt e); reflexivity.
  - unfold Cache.delete, Cache.keys. simpl.
    assert (H := map_has_false_notin key (Cache.store c)).
    destruct (Cache.map_has key (Cache.store c)); split; intros H1;
      try reflexivity; try discriminate.
    + destruct (in_dec string_dec key (map fst (Cache.store c)));
        [assumption|]. apply H in n. discriminate.
    + exfalso. apply (proj1 H eq_refl), H1.
Qed.

(** X8: while there is room, or when the key is already stored, [set]
    leaves every other entry as it was. *)
Theorem Cache_set_without_eviction_keeps_others :
  forall (c : Cache.t V) (now : Z) (key k : string) (v : V)
         (ttl : option Z),
    Cache.size c < Cache.maxSize c
    \/ Cache.map_has key (Cache.store c) = true ->
    k <> key ->
    Cache.map_get k (Cache.store (Cache.set now key v ttl c))
    = Cache.map_get k (Cache.store c).
Proof.
  intros c now key k v ttl Hroom Hne. unfold Cache.set.
  assert ((Cache.size c >=? Cache.maxSize c)
          && negb (Cache.map_has key (Cache.store c)) = false) as ->.
  { destruct Hroom as [H|H].
    - destruct (Z.geb_spec (Cache.size c) (Cache.maxSize c)); [lia|].
      reflexivity.
    - rewrite H. apply andb_false_r. }
  simpl. apply map_get_map_set_other, Hne.
Qed.

End CacheLaws.

Lemma Cache_cleanup_transparent_witness :
  NoDup (Cache.keys Inputs.one_entry)
  /\ fst (Cache.get 9 "k" (Cache._cleanup 9 Inputs.one_entry)) = None
  /\ fst (Cache.get 9 "k" Inputs.one_entry) = None.
Proof.
  assert (NoDup (Cache.keys Inputs.one_entry)) as Hnd
      by (repeat constructor; intros []).
  split; [exact Hnd|].
  destruct (Cache_cleanup_transparent Inputs.one_entry 9 "k" Hnd)
    as (Hget & _ & _).
  split; [rewrite Hget|]; reflexivity.
Defined.

Lemma two_entries_wellFormed : Cache.wellFormed Inputs.two_entries.
Proof.
  split; [|split].
  - repeat constructor; simpl; intuition discriminate.
  - vm_compute. discriminate.
  - simpl. intuition discriminate.
Qed.

Lemma Cache_operations_keep_wellFormed_witness :
  Cache.wellFormed Inputs.two_entries
  /\ 0 < Cache.maxSize Inputs.two_entries
  /\ Cache.wellFormed (Cache.set 2 "c" 9 None Inputs.two_entries)
  /\ Cache.wellFormed (snd (Cache.get 2 "a" Inputs.two_entries)).
Proof.
  split; [exact two_entries_wellFormed|]. split; [reflexivity|].
  destruct (Cache_operations_keep_wellFormed
              Inputs.two_entries 2 "c" 9 None
              two_entries_wellFormed eq_refl) as [Hset _].
  destruct (Cache_operations_keep_wellFormed
              Inputs.two_entries 2 "a" 9 None
              two_entries_wellFormed eq_refl) as (_ & Hget & _).
  split; [apply Hset; discriminate|exact Hget].
Defined.

Lemma Cache_set_evicts_exactly_lru_witness :
  Cache.wellFormed Inputs.two_entries
  /\ 0 < Cache.maxSize Inputs.two_entries
  /\ Cache.size Inputs.two_entries = Cache.maxSize Inputs.two_entries
  /\ Cache.map_has "c" (Cache.store Inputs.two_entries) = false
  /\ exists k e,
      In (k, e) (Cache.store Inputs.two_entries)
      /\ (forall k' e', In (k', e') (Cache.store Inputs.two_entries) ->
                        Cache.lastAccessed e <= Cache.lastAccessed e')
      /\ Cache.store (Cache.set 2 "c" 9 None Inputs.two_entries)
         = Cache.map_delete k (Cache.store Inputs.two_entries)
           ++ [("c"%string, Cache.mkEntry 9 2 2
                       (2 + Cache.effectiveTTL None Inputs.two_entries) 0)]
      /\ Cache.map_get k
           (Cache.store (Cache.set 2 "c" 9 None Inputs.two_entries))
         = None
      /\ Cache.size (Cache.set 2 "c" 9 None Inputs.two_entries)
         = Cache.size Inputs.two_entries.
Proof.
  split; [exact two_entries_wellFormed|]. split; [reflexivity|].
  split; [reflexivity|]. split; [reflexivity|].
  exact (Cache_set_evicts_exactly_lru
           Inputs.two_entries 2 "c" 9 None
           two_entries_wellFormed eq_refl eq_refl eq_refl).
Defined.

Lemma Cache_get_protects_from_eviction_witness :
  NoDup (Cache.keys Inputs.two_entries)
  /\ fst (Cache.get 5 "a" Inputs.two_entries) = Some 7
  /\ In ("b"%string, Cache.mkEntry 8 1 1 101 0)
        (Cache.store Inputs.two_entries)
  /\ Cache.map_has "a"
       (Cache.store
          (Cache.set 6 "c" 9 None (snd (Cache.get 5 "a" Inputs.two_entries))))
     = true.
Proof.
  assert (In ("b"%string, Cache.mkEntry 8 1 1 101 0)
             (Cache.store Inputs.two_entries)) as Hin
      by (right; left; reflexivity).
  split; [exact (proj1 two_entries_wellFormed)|].
  split; [reflexivity|]. split; [exact Hin|].
  apply (Cache_get_protects_from_eviction
           Inputs.two_entries 5 6 "a" "c" "b" 7 9
           (Cache.mkEntry 8 1 1 101 0) None
           (proj1 two_entries_wellFormed) eq_refl Hin).
  - discriminate.
  - reflexivity.
Defined.

Lemma Cache_set_without_eviction_keeps_others_witness :
  Cache.map_has "a" (Cache.store Inputs.two_entries) = true
  /\ Cache.map_get "b"
       (Cache.store (Cache.set 2 "a" 9 None Inputs.two_entries))
     = Cache.map_get "b" (Cache.store Inputs.two_entries).
Proof.
  split; [reflexivity|].
  apply (Cache_set_without_eviction_keeps_others
           Inputs.two_entries 2 "a" "b" 9 None).
  - right. reflexivity.
  - discriminate.
Defined.

(* ================================================================== *)
(** ** Further properties of the calculators and conversions *)

(** X9: whatever satisfies the strict red-flag test satisfies the relaxed
    one, and the strict test holds of numbers only. *)
Theorem isRedFlagConditions_strict_implies_relaxed :
  forall h w : value,
    isRedFlagConditions h w true = true ->
    isRedFlagConditions h w false = true
    /\ exists hq wq, h = Num hq /\ w = Num wq
                     /\ (hq < 15)%Q /\ (25 < wq)%Q.
Proof.
  intros h w. unfold isRedFlagConditions.
  destruct h as [| |hq], w as [| |wq]; simpl; try discriminate.
  intros H. rewrite H. split; [reflexivity|].
  apply andb_true_iff in H. destruct H as [H1 H2].
  exists hq, wq. unfold lt, gt, of_Z in *. simpl in *.
  apply Qltb_true in H1. apply Qltb_true in H2. auto.
Qed.

Lemma isRedFlagConditions_strict_implies_relaxed_witness :
  isRedFlagConditions (Num 12) (Num 30) true = true
  /\ isRedFlagConditions (Num 12) (Num 30) false = true.
Proof.
  split; [reflexivity|].
  exact (proj1 (isRedFlagConditions_strict_implies_relaxed
                  (Num 12) (Num 30) eq_refl)).
Defined.

(** X10: when the Haines estimate is not [null] it lies between 2 and 6. *)
Theorem calculateHainesIndex_range :
  forall (t h e : value) (z : Z),
    calculateHainesIndex t h e = Some z -> 2 <= z <= 6.
Proof.
  intros t h e z. unfold calculateHainesIndex.
  destruct (nullish t || nullish h); [discriminate|].
  intros [= <-]. unfold stabilityComponent, moistureComponent.
  destruct (ge t (of_Z 90)), (ge t (of_Z 75)),
           (le h (of_Z 20)), (le h (of_Z 40)); lia.
Qed.

Lemma calculateHainesIndex_range_witness :
  calculateHainesIndex (Num 85) (Num 25) (Num 5000) = Some 4
  /\ 2 <= 4 <= 6.
Proof.
  split; [reflexivity|].
  exact (calculateHainesIndex_range (Num 85) (Num 25) (Num 5000) 4 eq_refl).
Defined.

(** X11: the ignition estimate is a multiple of 5 between 0 and 90; the
    cap at 100 is never reached. *)
Theorem estimateIgnitionProbability_range :
  forall c : conditions,
    0 <= estimateIgnitionProbability c <= 90
    /\ (5 | estimateIgnitionProbability c).
Proof.
  intros c. unfold estimateIgnitionProbability.
  destruct (ge (c_temperature c) (of_Z 95)),
           (ge (c_temperature c) (of_Z 85)),
           (ge (c_temperature c) (of_Z 75)),
           (le (c_relativeHumidity c) (of_Z 10)),
           (le (c_relativeHumidity c) (of_Z 20)),
           (le (c_relativeHumidity c) (of_Z 30)),
           (le (c_relativeHumidity c) (of_Z 40)),
           (ge (c_windSpeed c) (of_Z 20)),
           (ge (c_windSpeed c) (of_Z 10)),
           (ge (c_windSpeed c) (of_Z 5));
    simpl; (split; [lia|]);
    match goal with
    | |- (5 | ?n) => exists (n / 5); reflexivity
    end.
Qed.



(* ------------------------------------------------------------------ *)
(** *** Compass labels for every angle *)










(** X15: each of the sixteen labels, converted to its table angle and
    back, comes out as the next label clockwise, never as itself. *)
Theorem degreesToCardinal_of_cardinalToDegrees :
  forall i : Z,
    0 <= i < 16 ->
    exists c,
      cardinalToDegrees (direction_at i) = Some c
      /\ degreesToCardinal (Num c) = direction_at (Z.rem (i + 1) 16)
      /\ degreesToCardinal (Num c) <> direction_at i.
Proof.
  intros i H.
  assert (i = 0 \/ i = 1 \/ i = 2 \/ i = 3 \/ i = 4 \/ i = 5 \/ i = 6
          \/ i = 7 \/ i = 8 \/ i = 9 \/ i = 10 \/ i = 11 \/ i = 12
          \/ i = 13 \/ i = 14 \/ i = 15) as Hc by lia.
  repeat (destruct Hc as [->|Hc];
          [eexists; split; [reflexivity|];
           split; [vm_compute; reflexivity|vm_compute; discriminate]|]).
  subst i. eexists. split; [reflexivity|].
  split; [vm_compute; reflexivity|vm_compute; discriminate].
Qed.

Lemma degreesToCardinal_of_cardinalToDegrees_witness :
  0 <= 4 < 16
  /\ exists c,
      cardinalToDegrees (direction_at 4) = Some c
      /\ degreesToCardinal (Num c) = direction_at (Z.rem (4 + 1) 16)
      /\ degreesToCardinal (Num c) <> direction_at 4.
Proof.
  assert (0 <= 4 < 16) as H by lia.
  split; [exact H|].
  exact (degreesToCardinal_of_cardinalToDegrees 4 H).
Defined.

(* ================================================================== *)
(** ** Further properties of the coordinator *)

Section CoordinatorLaws.

Import ClientManager.

Context {D E : Type}.
Variable stationId : string.

Implicit Types (clients : list (provider D E)) (w : world D).

Lemma tryClients_fetched clients :
  forall lastError w res,
    fst (tryClients clients stationId lastError w) = inr res ->
    let w' := snd (tryClients clients stationId lastError w) in
    cache w' = Cache.set (clock w') (cacheKey stationId) res (Some 300000)
                         (cache w)
    /\ meta_cached res = false
    /\ meta_timestamp res = clock w'
    /\ exists p, In p clients /\ meta_source res = name p
                 /\ snd (fetchCurrent p stationId) = inr (data res).
Proof.
  induction clients as [|p rest IH]; intros lastError w res; simpl.
  - discriminate.
  - destruct (fetchCurrent p stationId) as [elapsed [e|d]] eqn:F; simpl.
    + intros H.
      destruct (IH (Some e)
                   {| cache := cache w; clock := clock w + elapsed;
                      calls := calls w ++ [(name p, stationId)] |}
                   res H) as (Hc & Hm & Ht & q & Hq & Hn & Hd).
      simpl in Hc. repeat split; auto.
      exists q. auto.
    + intros [= <-]. simpl. repeat split.
      exists p. rewrite F. auto.
Qed.

(** X16: after a request that had to ask the providers and succeeded, any
    request for the same station made within the next 300000 ms on the
    same cache asks no provider and returns the very same result, its
    [cached] mark still [false] and its timestamp that of the first
    fetch; the result carries the name of a configured provider and the
    data that provider returned. *)
Theorem getCurrentObservation_repeat_within_ttl :
  forall clients clients2 w res t2,
    fst (Cache.get (clock w) (cacheKey stationId) (cache w)) = None ->
    fst (getCurrentObservation clients stationId w) = inr res ->
    let w1 := snd (getCurrentObservation clients stationId w) in
    clock w1 <= t2 <= clock w1 + 300000 ->
    let w2 := {| cache := cache w1; clock := t2; calls := calls w1 |} in
    fst (getCurrentObservation clients2 stationId w2) = inr res
    /\ calls (snd (getCurrentObservation clients2 stationId w2)) = calls w1
    /\ meta_cached res = false
    /\ meta_timestamp res = clock w1
    /\ exists p, In p clients /\ meta_source res = name p
                 /\ snd (fetchCurrent p stationId) = inr (data res).
Proof.
  intros clients clients2 w res t2 Hmiss Hres.
  unfold getCurrentObservation in Hres |- *.
  destruct (Cache.get (clock w) (cacheKey stationId) (cache w))
    as [[v|] c1] eqn:G; [discriminate|].
  cbv zeta. intros Ht.
  destruct (tryClients_fetched
              clients None
              {| cache := c1; clock := clock w; calls := calls w |}
              res Hres) as (Hc & Hm & Hts & Hp).
  cbv zeta in Hc. simpl cache in Hc.
  set (w1 := snd (tryClients clients stationId None
                             {| cache := c1; clock := clock w;
                                calls := calls w |})) in *.
  cbn [cache clock calls].
  assert (fst (Cache.get t2 (cacheKey stationId) (cache w1)) = Some res)
    as Hhit.
  { rewrite Hc. apply get_visible_iff. eexists. split.
    - unfold Cache.set. simpl. apply map_get_map_set.
    - simpl. split; [reflexivity|lia]. }
  destruct (Cache.get t2 (cacheKey stationId) (cache w1)) as [[v|] c2];
    simpl in Hhit; [|discriminate].
  injection Hhit as ->. simpl. auto.
Qed.

End CoordinatorLaws.

Lemma getCurrentObservation_repeat_within_ttl_witness :
  fst (Cache.get 1000 (ClientManager.cacheKey "C5725")
                 (ClientManager.cache Inputs.cold_start)) = None
  /\ fst (ClientManager.getCurrentObservation
            [Inputs.primary; Inputs.backup] "C5725" Inputs.cold_start)
     = inr (ClientManager.mkSourced 11 "mesowest" false 1070)
  /\ 1070 <= 200000 <= 1070 + 300000
  /\ fst (ClientManager.getCurrentObservation
            [Inputs.primary; Inputs.backup] "C5725"
            {| ClientManager.cache :=
                 ClientManager.cache
                   (snd (ClientManager.getCurrentObservation
                           [Inputs.primary; Inputs.backup] "C5725"
                           Inputs.cold_start));
               ClientManager.clock := 200000;
               ClientManager.calls :=
                 ClientManager.calls
                   (snd (ClientManager.getCurrentObservation
                           [Inputs.primary; Inputs.backup] "C5725"
                           Inputs.cold_start)) |})
     = inr (ClientManager.mkSourced 11 "mesowest" false 1070).
Proof.
  split; [reflexivity|]. split; [reflexivity|]. split; [lia|].
  apply (getCurrentObservation_repeat_within_ttl
           "C5725" [Inputs.primary; Inputs.backup]
           [Inputs.primary; Inputs.backup] Inputs.cold_start
           (ClientManager.mkSourced 11 "mesowest" false 1070) 200000
           eq_refl eq_refl).
  vm_compute. split; discriminate.
Defined.

(* ================================================================== *)
(** ** Further properties of the transformer and the weather helpers *)

Lemma estimateProbabilityOfRain_bounds (h p t : value) :
  0 <= estimateProbabilityOfRain h p t <= 80.
Proof.
  unfold estimateProbabilityOfRain.
  destruct (ge h (of_Z 90)), (ge h (of_Z 80)), (ge h (of_Z 70)),
           (ge h (of_Z 60)), (gt p (Num 0.1)), (gt p (Num 0.01)),
           (nullish t), (lt t (of_Z 32)); lia.
Qed.

(** X17: the rain estimate lies between 0 and 80 for every input, so the
    schema bound of 100 is never at stake. *)
Theorem estimateProbabilityOfRain_range :
  forall relativeHumidity recentPrecip temperature : value,
    0 <= estimateProbabilityOfRain relativeHumidity recentPrecip temperature
    <= 80.
Proof. exact estimateProbabilityOfRain_bounds. Qed.




Lemma indexed_issues_nil {A : Type} (bad : A -> bool)
      (at_ : nat -> issue) (l : list A) :
  forall i, indexed_issues bad at_ i l = [] <->
            Forall (fun x => bad x = false) l.
Proof.
  induction l as [|x l IH]; intros i; simpl.
  - split; [constructor|reflexivity].
  - destruct (bad x) eqn:B; simpl.
    + split; [discriminate|]. intros H. inversion H. congruence.
    + rewrite IH. split; [constructor; assumption|].
      intros H. inversion H. assumption.
Qed.

(** X19: every document the transformer returns is the one it built, and
    satisfies the bounds of the schema: temperature a number, humidity
    between 0 and 100, wind speed and gusts not negative, rain between 0
    and 100, every warning with a description, and every change entry of
    the schema's shape. *)
Theorem transformer_output_invariants :
  forall (now : Z) (obs : observation) (opts : options) (r : weatherRisks),
    transformToWildfireSchema now obs opts = inr r ->
    r = buildRisks now obs opts
    /\ (exists tz, temperature_value r = Some tz)
    /\ (exists hz, humidity_percent r = Some hz /\ 0 <= hz <= 100)
    /\ (exists wz, wind_speed r = Some wz /\ 0 <= wz)
    /\ (exists gz, wind_gusts r = Some gz /\ 0 <= gz)
    /\ 0 <= rain_percent r <= 100
    /\ Forall (fun x => w_description x <> None) (red_flag_warnings r)
    /\ Forall (fun x => exists p c m f, x = SchemaEntry p c m f)
              (extreme_changes r).
Proof.
  intros now obs opts r. unfold transformToWildfireSchema.
  destruct (missingFields obs); [|discriminate].
  destruct (schemaIssues (buildRisks now obs opts)) eqn:S; [|discriminate].
  intros [= <-]. split; [reflexivity|].
  set (r := buildRisks now obs opts) in *. clearbody r.
  unfold schemaIssues in S.
  apply app_eq_nil in S. destruct S as [St S].
  apply app_eq_nil in S. destruct S as [Sh S].
  apply app_eq_nil in S. destruct S as [Sw S].
  apply app_eq_nil in S. destruct S as [Sg S].
  apply app_eq_nil in S. destruct S as [Sr S].
  apply app_eq_nil in S. destruct S as [Sd Sc].
  repeat split.
  - destruct (temperature_value r); [eauto|discriminate].
  - unfold in_range in Sh. destruct (humidity_percent r) as [hz|];
      [|discriminate].
    destruct (Z.leb_spec 0 hz), (Z.leb_spec hz 100); try discriminate.
    exists hz. split; [reflexivity|lia].
  - unfold in_range in Sw. destruct (wind_speed r) as [wz|];
      [|discriminate].
    destruct (Z.leb_spec 0 wz); try discriminate.
    exists wz. split; [reflexivity|lia].
  - unfold in_range in Sg. destruct (wind_gusts r) as [gz|];
      [|discriminate].
    destruct (Z.leb_spec 0 gz); try discriminate.
    exists gz. split; [reflexivity|lia].
  - unfold in_range in Sr.
    destruct (Z.leb_spec 0 (rain_percent r)); [lia|discriminate].
  - unfold in_range in Sr.
    destruct (Z.leb_spec 0 (rain_percent r)),
             (Z.leb_spec (rain_percent r) 100); try discriminate. lia.
  - apply indexed_issues_nil in Sd.
    eapply Forall_impl; [|exact Sd]. intros x Hx.
    simpl in Hx. destruct (w_description x); [discriminate|discriminate].
  - apply indexed_issues_nil in Sc.
    eapply Forall_impl; [|exact Sc]. intros x Hx. simpl in Hx.
    destruct x as [p c m f|d]; [eauto|discriminate].
Qed.

Lemma transformer_output_invariants_witness :
  exists r,
    transformToWildfireSchema 0 Inputs.monument_creek (mkOptions [] [])
    = inr r
    /\ humidity_percent r = Some 13
    /\ Forall (fun x => w_description x <> None) (red_flag_warnings r).
Proof.
  eexists. split; [reflexivity|]. split; [reflexivity|].
  exact (proj1 (proj2 (proj2 (proj2 (proj2 (proj2 (proj2
           (transformer_output_invariants
              0 Inputs.monument_creek (mkOptions [] []) _ eq_refl)))))))).
Defined.



Lemma Math_round_nonneg (q : Q) : (0 <= q)%Q -> 0 <= Math_round q.
Proof.
  intros H. apply Math_round_ge. change (inject_Z 0) with 0%Q. lra.
Qed.



(* ------------------------------------------------------------------ *)
(** *** The scan of a history *)

Lemma In_insert_by_time (p x : seriesPoint) (l : list seriesPoint) :
  In x (insert_by_time p l) -> x = p \/ In x l.
Proof.
  induction l as [|q l IH]; simpl.
  - intros [<-|[]]. left. reflexivity.
  - destruct (p_timestamp p <? p_timestamp q); simpl.
    + intros [<-|[<-|H]]; auto.
    + intros [<-|H]; auto. destruct (IH H); auto.
Qed.

Lemma In_sort_by_time (x : seriesPoint) (l : list seriesPoint) :
  In x (sort_by_time l) -> In x l.
Proof.
  unfold sort_by_time.
  assert (forall acc, In x (fold_left (fun a p => insert_by_time p a) l acc)
                      -> In x acc \/ In x l) as H.
  { induction l as [|p l IH]; simpl; intros acc Hin; [auto|].
    destruct (IH _ Hin) as [H|H]; [|auto].
    destruct (In_insert_by_time _ _ _ H) as [->|H']; auto. }
  intros Hin. destruct (H [] Hin) as [[]|Hl]. exact Hl.
Qed.

Lemma In_detected ty d threshold timeDiff next x :
  In x (detected ty d threshold timeDiff next) ->
  d_type x = ty
  /\ d = Some (d_value x)
  /\ (inject_Z threshold < d_value x)%Q
  /\ d_time x = p_timestamp next
  /\ d_minutes x = Math_round (timeDiff * 60)%Q.
Proof.
  unfold detected, exceeds. destruct d as [q|]; [|intros []].
  destruct (Qltb (inject_Z threshold) q) eqn:B; [|intros []].
  apply Qltb_true in B. intros [<-|[]]. simpl. auto.
Qed.

Lemma In_pair_changes current next x :
  In x (pair_changes current next) ->
  (threshold_of (d_type x) < d_value x)%Q
  /\ 0 <= d_minutes x <= 180
  /\ d_time x = p_timestamp next
  /\ p_timestamp current < p_timestamp next
     <= p_timestamp current + 10800000
  /\ (d_type x = humidity_drop ->
      JS.sub (p_humidity current) (p_humidity next) = Some (d_value x)).
Proof.
  unfold pair_changes.
  destruct (Qle_bool (hours_between current next) 3
            && Qltb 0 (hours_between current next)) eqn:B; [|intros []].
  apply andb_true_iff in B. destruct B as [B1 B2].
  apply Qle_bool_iff in B1. apply Qltb_true in B2.
  assert (0 <= Math_round (hours_between current next * 60) <= 180) as Hm.
  { split.
    - apply Math_round_nonneg. lra.
    - assert (Math_round (hours_between current next * 60) < 181); [|lia].
      apply Math_round_lt. change (inject_Z 181) with 181%Q. lra. }
  assert (p_timestamp current < p_timestamp next
          <= p_timestamp current + 10800000) as Hgap.
  { unfold hours_between in B1, B2.
    set (dz := p_timestamp next - p_timestamp current) in *.
    change (inject_Z (1000 * 60 * 60)) with (inject_Z 3600000) in *.
    rewrite (Qdiv_const (inject_Z dz) 3600000) in B1, B2.
    assert (0 < inject_Z dz)%Q as P by lra.
    assert (inject_Z dz <= inject_Z 10800000)%Q as U
        by (change (inject_Z 10800000) with 10800000%Q; lra).
    change 0%Q with (inject_Z 0) in P.
    rewrite <- Zlt_Qlt in P. rewrite <- Zle_Qle in U. lia. }
  intros Hin. apply in_app_or in Hin.
  destruct Hin as [Hin|Hin]; [|apply in_app_or in Hin; destruct Hin as [Hin|Hin]];
    apply In_detected in Hin; destruct Hin as (Ety & Ed & Hth & Htime & Hmin);
    rewrite Ety, Hmin; simpl; repeat split; try exact Htime; try lia;
    try exact Hth; try discriminate.
  intros _. exact Ed.
Qed.

Lemma In_scan_pairs (sorted : list seriesPoint) x :
  In x (scan_pairs sorted) ->
  exists current next,
    In current sorted /\ In next sorted
    /\ In x (pair_changes current next).
Proof.
  induction sorted as [|a l IH]; simpl; [intros []|].
  destruct l as [|b l']; [intros []|].
  intros Hin. apply in_app_or in Hin. destruct Hin as [Hin|Hin].
  - exists a, b. simpl. auto.
  - destruct (IH Hin) as (c & n & Hc & Hn & Hx).
    exists c, n. simpl in *. auto.
Qed.

(** X21: every change the scan reports exceeds its threshold (15 for a
    wind increase, 20 for a humidity drop or temperature spike), carries
    the instant of a point of the series that lies at most three hours
    after another point of the series, and a duration between 0 and 180
    minutes. *)
Theorem detectExtremeChanges_sound :
  forall (timeSeries : list seriesPoint) (x : detectedChange),
    In x (detectExtremeChanges timeSeries) ->
    (threshold_of (d_type x) < d_value x)%Q
    /\ 0 <= d_minutes x <= 180
    /\ exists current next,
        In current timeSeries /\ In next timeSeries
        /\ d_time x = p_timestamp next
        /\ p_timestamp current < p_timestamp next
           <= p_timestamp current + 10800000.
Proof.
  intros ts x. unfold detectExtremeChanges.
  destruct (Z.of_nat (List.length ts) <? 2); [intros []|].
  intros Hin. destruct (In_scan_pairs _ _ Hin) as (c & n & Hc & Hn & Hx).
  apply In_sort_by_time in Hc. apply In_sort_by_time in Hn.
  destruct (In_pair_changes c n x Hx) as (Hth & Hm & Ht & Hgap & _).
  split; [exact Hth|]. split; [exact Hm|].
  exists c, n. auto.
Qed.

Lemma detectExtremeChanges_sound_witness :
  In (mkDetected wind_increase 20 3600000 20 60)
     (detectExtremeChanges Inputs.rising_wind)
  /\ (threshold_of wind_increase < 20)%Q.
Proof.
  assert (In (mkDetected wind_increase 20 3600000 20 60)
             (detectExtremeChanges Inputs.rising_wind)) as Hin
      by (left; reflexivity).
  split; [exact Hin|].
  exact (proj1 (detectExtremeChanges_sound Inputs.rising_wind _ Hin)).
Defined.

(** X22: a series whose points have no [humidity] member, as the points
    the adapters produce, never yields a humidity drop. *)
Theorem detectExtremeChanges_without_humidity_member :
  forall (timeSeries : list seriesPoint) (x : detectedChange),
    Forall (fun p => p_humidity p = Undefined) timeSeries ->
    In x (detectExtremeChanges timeSeries) ->
    d_type x <> humidity_drop.
Proof.
  intros ts x Hall. unfold detectExtremeChanges.
  destruct (Z.of_nat (List.length ts) <? 2); [intros []|].
  intros Hin Hty. destruct (In_scan_pairs _ _ Hin) as (c & n & Hc & Hn & Hx).
  apply In_sort_by_time in Hc.
  rewrite Forall_forall in Hall. specialize (Hall c Hc).
  destruct (In_pair_changes c n x Hx) as (_ & _ & _ & _ & Hsub).
  specialize (Hsub Hty). rewrite Hall in Hsub. discriminate.
Qed.

Lemma detectExtremeChanges_without_humidity_member_witness :
  Forall (fun p => p_humidity p = Undefined) Inputs.rising_wind
  /\ In (mkDetected wind_increase 20 3600000 20 60)
        (detectExtremeChanges Inputs.rising_wind)
  /\ wind_increase <> humidity_drop.
Proof.
  assert (Forall (fun p => p_humidity p = Undefined) Inputs.rising_wind)
    as Hall by (repeat constructor).
  assert (In (mkDetected wind_increase 20 3600000 20 60)
             (detectExtremeChanges Inputs.rising_wind)) as Hin
      by (left; reflexivity).
  split; [exact Hall|]. split; [exact Hin|].
  exact (detectExtremeChanges_without_humidity_member
           Inputs.rising_wind _ Hall Hin).
Defined.

Ltac split_cascade :=
  repeat match goal with
         | |- context [if ?b then _ else _] => destruct b
         end.

Lemma temperatureFactor_shape (v : value) :
  (fst (temperatureFactor v) = None /\ snd (temperatureFactor v) = 0)
  \/ (exists s, fst (temperatureFactor v) = Some s
                /\ 1 <= snd (temperatureFactor v) <= 3).
Proof.
  unfold temperatureFactor. split_cascade; simpl;
    first [left; split; reflexivity | right; eexists; split; [reflexivity|lia]].
Qed.

Lemma humidityFactor_shape (v : value) :
  (fst (humidityFactor v) = None /\ snd (humidityFactor v) = 0)
  \/ (exists s, fst (humidityFactor v) = Some s
                /\ 1 <= snd (humidityFactor v) <= 4).
Proof.
  unfold humidityFactor. split_cascade; simpl;
    first [left; split; reflexivity | right; eexists; split; [reflexivity|lia]].
Qed.

Lemma windFactor_shape (v : value) :
  (fst (windFactor v) = None /\ snd (windFactor v) = 0)
  \/ (exists s, fst (windFactor v) = Some s
                /\ 1 <= snd (windFactor v) <= 4).
Proof.
  unfold windFactor. split_cascade; simpl;
    first [left; split; reflexivity | right; eexists; split; [reflexivity|lia]].
Qed.

Lemma fuelFactor_shape (v : value) :
  (fst (fuelFactor v) = None /\ snd (fuelFactor v) = 0)
  \/ (exists s, fst (fuelFactor v) = Some s
                /\ 1 <= snd (fuelFactor v) <= 3).
Proof.
  unfold fuelFactor. split_cascade; simpl;
    first [left; split; reflexivity | right; eexists; split; [reflexivity|lia]].
Qed.

Lemma severityBand_bounds (s : Z) :
  (severityBand s = VeryHigh -> 7 <= s)
  /\ (severityBand s = Extreme -> 10 <= s).
Proof.
  unfold severityBand.
  destruct (s >=? 10) eqn:E10; [split; [discriminate|lia]|].
  destruct (s >=? 7) eqn:E7; [split; [lia|discriminate]|].
  destruct (s >=? 5); [split; discriminate|].
  destruct (s >=? 3); split; discriminate.
Qed.

(** X23: the severity assessment scores between 0 and 14 and names at most
    four factors, never more factors than points; it names no factor
    exactly when the score is 0; and it reaches "Very High" only on at
    least two factors and "Extreme" only on at least three. *)
Theorem assessFireWeatherSeverity_invariants :
  forall c : fireWeather,
    let r := assessFireWeatherSeverity c in
    0 <= score r <= 14
    /\ Z.of_nat (List.length (factors r)) <= score r
    /\ (List.length (factors r) <= 4)%nat
    /\ (score r = 0 <-> factors r = [])
    /\ (severity r = VeryHigh -> (2 <= List.length (factors r))%nat)
    /\ (severity r = Extreme -> (3 <= List.length (factors r))%nat).
Proof.
  intros c r. subst r. unfold assessFireWeatherSeverity.
  destruct (temperatureFactor_shape (fw_temperature c)) as [[T1 T2]|(s1 & T1 & T2)];
  destruct (humidityFactor_shape (fw_relativeHumidity c)) as [[H1 H2]|(s2 & H1 & H2)];
  destruct (windFactor_shape (or_else (fw_windGust c) (fw_windSpeed c)))
    as [[W1 W2]|(s3 & W1 & W2)];
  destruct (fuelFactor_shape (fw_fuelMoisture c)) as [[F1 F2]|(s4 & F1 & F2)];
  destruct (temperatureFactor _) as [o1 p1];
  destruct (humidityFactor _) as [o2 p2];
  destruct (windFactor _) as [o3 p3];
  destruct (fuelFactor _) as [o4 p4];
  simpl in T1, T2, H1, H2, W1, W2, F1, F2; subst;
  cbn [fold_left push_factor fst snd score factors severity app List.length];
  match goal with
  | |- context [severityBand ?s] =>
      destruct (severityBand_bounds s) as [B7 B10]
  end;
  (split; [lia|]); (split; [simpl; lia|]); (split; [simpl; lia|]);
  (split; [split; [intros; try reflexivity; exfalso; lia
                  | intros; try discriminate; lia]|]);
  (split; intros Hs; [apply B7 in Hs|apply B10 in Hs]; simpl; lia).
Qed.

Ltac compare_readings :=
  unfold ge, le, nle, of_Z; simpl;
  repeat match goal with
         | |- context [Qle_bool ?a ?b] =>
             let E := fresh "E" in
             destruct (Qle_bool a b) eqn:E;
             [apply Qle_bool_iff in E | apply Qle_bool_false in E]
         end;
  unfold inject_Z in *; simpl; try lia; exfalso; lra.

Lemma temperatureFactor_monotone (t1 t2 : Q) :
  (t1 <= t2)%Q ->
  snd (temperatureFactor (Num t1)) <= snd (temperatureFactor (Num t2)).
Proof. intros H. unfold temperatureFactor. compare_readings. Qed.

Lemma humidityFactor_antitone (h1 h2 : Q) :
  (h2 <= h1)%Q ->
  snd (humidityFactor (Num h1)) <= snd (humidityFactor (Num h2)).
Proof. intros H. unfold humidityFactor. compare_readings. Qed.

Lemma windFactor_monotone (w1 w2 : Q) :
  (w1 <= w2)%Q ->
  snd (windFactor (Num w1)) <= snd (windFactor (Num w2)).
Proof. intros H. unfold windFactor. compare_readings. Qed.

Lemma fuelFactor_antitone (m1 m2 : Q) :
  (m2 <= m1)%Q ->
  snd (fuelFactor (Num m1)) <= snd (fuelFactor (Num m2)).
Proof. intros H. unfold fuelFactor, nullish. compare_readings. Qed.

Lemma severityBand_monotone (s1 s2 : Z) :
  s1 <= s2 -> severityRank (severityBand s1) <= severityRank (severityBand s2).
Proof.
  intros H. unfold severityBand.
  repeat match goal with
         | |- context [?a >=? ?b] =>
             let E := fresh "E" in
             destruct (Z.geb_spec a b) as [E|E]
         end; simpl; lia.
Qed.

Lemma assessFireWeatherSeverity_score (c : fireWeather) :
  score (assessFireWeatherSeverity c)
  = snd (temperatureFactor (fw_temperature c))
    + snd (humidityFactor (fw_relativeHumidity c))
    + snd (windFactor (or_else (fw_windGust c) (fw_windSpeed c)))
    + snd (fuelFactor (fw_fuelMoisture c))
  /\ severity (assessFireWeatherSeverity c)
     = severityBand (score (assessFireWeatherSeverity c)).
Proof. split; reflexivity. Qed.

(** X24: hotter, drier, windier never lowers the assessment.  For numeric
    temperature, humidity and wind speed, no gust reading (absent or 0),
    and fuel moisture either unchanged or numeric and not higher, a
    temperature not lower, a humidity not higher and a wind speed not
    lower give a score and a severity not lower. *)
Theorem assessFireWeatherSeverity_monotone :
  forall (t1 t2 h1 h2 w1 w2 : Q) (g1 g2 fm1 fm2 : value),
    (t1 <= t2)%Q -> (h2 <= h1)%Q -> (w1 <= w2)%Q ->
    truthy g1 = false -> truthy g2 = false ->
    (fm1 = fm2
     \/ exists m1 m2, fm1 = Num m1 /\ fm2 = Num m2 /\ (m2 <= m1)%Q) ->
    let r1 := assessFireWeatherSeverity
                (mkFireWeather (Num t1) (Num h1) (Num w1) g1 fm1) in
    let r2 := assessFireWeatherSeverity
                (mkFireWeather (Num t2) (Num h2) (Num w2) g2 fm2) in
    score r1 <= score r2
    /\ severityRank (severity r1) <= severityRank (severity r2).
Proof.
  intros t1 t2 h1 h2 w1 w2 g1 g2 fm1 fm2 Ht Hh Hw Hg1 Hg2 Hfm r1 r2.
  assert (score r1 <= score r2) as Hscore.
  { subst r1 r2.
    rewrite (proj1 (assessFireWeatherSeverity_score _)).
    rewrite (proj1 (assessFireWeatherSeverity_score _)).
    simpl fw_temperature. simpl fw_relativeHumidity. simpl fw_windGust.
    simpl fw_windSpeed. simpl fw_fuelMoisture.
    unfold or_else. rewrite Hg1, Hg2.
    pose proof (temperatureFactor_monotone t1 t2 Ht).
    pose proof (humidityFactor_antitone h1 h2 Hh).
    pose proof (windFactor_monotone w1 w2 Hw).
    assert (snd (fuelFactor fm1) <= snd (fuelFactor fm2)).
    { destruct Hfm as [->|(m1 & m2 & -> & -> & Hm)]; [lia|].
      apply fuelFactor_antitone. exact Hm. }
    lia. }
  split; [exact Hscore|].
  subst r1 r2.
  rewrite (proj2 (assessFireWeatherSeverity_score _)).
  rewrite (proj2 (assessFireWeatherSeverity_score
                    (mkFireWeather (Num t2) (Num h2) (Num w2) g2 fm2))).
  apply severityBand_monotone. exact Hscore.
Qed.

Lemma assessFireWeatherSeverity_monotone_witness :
  score (assessFireWeatherSeverity
           (mkFireWeather (Num 85) (Num 30) (Num 10) Undefined Undefined))
  <= score (assessFireWeatherSeverity
              (mkFireWeather (Num 101) (Num 9) (Num 41) Null Undefined)).
Proof.
  apply (proj1 (assessFireWeatherSeverity_monotone
                  85 101 30 9 10 41 Undefined Null Undefined Undefined
                  ltac:(lra) ltac:(lra) ltac:(lra) eq_refl eq_refl
                  (or_introl eq_refl))).
Defined.

Section RetryLaws.

Import BaseClient.

Context {D : Type}.
Variable transport : Z -> error + D.

Lemma attempts_trace (maxRetries : Z) (remaining : nat) :
  forall (attempt : Z) (lastError : option error),
    Z.of_nat remaining = maxRetries - attempt ->
    (0 < remaining)%nat ->
    let r := attempts transport maxRetries remaining attempt lastError in
    1 <= requests (snd r) <= Z.of_nat remaining
    /\ Z.of_nat (List.length (delays (snd r))) = requests (snd r) - 1
    /\ (exists earlier a, snd r = earlier ++ [Requested a])
    /\ (forall e, fst r <> ThrewLast e).
Proof.
  induction remaining as [|n IH]; intros attempt lastError Hn Hpos; [lia|].
  simpl. destruct (transport attempt) as [e|d].
  - destruct ((attempt =? maxRetries - 1) || negb (_shouldRetry e)) eqn:Stop.
    + simpl. split; [lia|]. split; [lia|].
      split; [exists [], attempt; reflexivity|discriminate].
    + apply orb_false_iff in Stop. destruct Stop as [Hlast _].
      apply Z.eqb_neq in Hlast.
      destruct n as [|n']; [lia|].
      specialize (IH (attempt + 1) (Some e) ltac:(lia) ltac:(lia)).
      destruct (attempts transport maxRetries (S n') (attempt + 1) (Some e))
        as [out later].
      cbn [fst snd requests delays List.length] in IH |- *.
      destruct IH as (Hreq & Hdel & (earlier & a & Hlater) & Hout).
      rewrite Hlater in *.
      split; [lia|]. split; [lia|]. split; [|exact Hout].
      exists (Requested attempt
                :: Slept (_getRetryDelay e attempt) :: earlier), a.
      reflexivity.
  - simpl. split; [lia|]. split; [lia|].
    split; [exists [], attempt; reflexivity|discriminate].
Qed.

(** X25: one call of [request] sends at most [maxRetries] HTTP requests.
    With a budget of at least one it sends at least one, pauses only
    between two requests, and ends in the data or a normalised error; with
    a budget of zero or less it sends nothing and throws [undefined]. *)
Theorem request_bounded :
  forall maxRetries : Z,
    let r := request transport maxRetries in
    requests (snd r) <= Z.max 0 maxRetries
    /\ (maxRetries <= 0 -> r = (ThrewLast None, []))
    /\ (1 <= maxRetries ->
        1 <= requests (snd r)
        /\ Z.of_nat (List.length (delays (snd r))) = requests (snd r) - 1
        /\ (exists earlier a, snd r = earlier ++ [Requested a])
        /\ (forall e, fst r <> ThrewLast e)).
Proof.
  intros maxRetries r. subst r. unfold request.
  destruct (Z_le_gt_dec maxRetries 0) as [Hle|Hgt].
  - assert (Z.to_nat maxRetries = 0%nat) as -> by lia. simpl.
    split; [lia|]. split; [reflexivity|lia].
  - destruct (attempts_trace maxRetries (Z.to_nat maxRetries) 0 None
                             ltac:(lia) ltac:(lia))
      as (Hreq & Hdel & Hend & Hout).
    split; [lia|]. split; [lia|]. intros _.
    split; [lia|]. split; [exact Hdel|]. split; [exact Hend|exact Hout].
Qed.

Lemma attempts_first_final (maxRetries : Z) (k : nat) :
  forall (remaining : nat) (attempt : Z) (lastError : option error),
    (k < remaining)%nat ->
    (forall i, attempt <= i < attempt + Z.of_nat k ->
               i <> maxRetries - 1
               /\ exists e, transport i = inl e /\ _shouldRetry e = true) ->
    match transport (attempt + Z.of_nat k) with
    | inr _ => True
    | inl e => _shouldRetry e = false
               \/ attempt + Z.of_nat k = maxRetries - 1
    end ->
    let r := attempts transport maxRetries remaining attempt lastError in
    fst r = match transport (attempt + Z.of_nat k) with
            | inr d => Returned d
            | inl e => Threw (_normalizeError e)
            end
    /\ requests (snd r) = Z.of_nat k + 1
    /\ List.length (delays (snd r)) = k.
Proof.
  induction k as [|k IH]; intros remaining attempt lastError Hk Hretry Hfinal.
  - destruct remaining as [|n]; [lia|].
    rewrite Z.add_0_r in *. simpl.
    destruct (transport attempt) as [e|d]; [|simpl; auto].
    assert ((attempt =? maxRetries - 1) || negb (_shouldRetry e) = true)
      as ->.
    { destruct Hfinal as [-> | ->]; [apply orb_true_r|].
      rewrite Z.eqb_refl. reflexivity. }
    simpl. auto.
  - destruct remaining as [|n]; [lia|].
    destruct (Hretry attempt ltac:(lia)) as (Hnot & e & He & Hre).
    assert (attempt + Z.of_nat (S k) = attempt + 1 + Z.of_nat k) as Eq
        by lia.
    rewrite Eq in *.
    cbn [attempts]. rewrite He, Hre.
    apply Z.eqb_neq in Hnot. rewrite Hnot. cbn [orb negb].
    specialize (IH n (attempt + 1) (Some e) ltac:(lia)).
    destruct (attempts transport maxRetries n (attempt + 1) (Some e))
      as [out later].
    cbn [fst snd requests delays List.length] in IH |- *.
    destruct IH as (Hout & Hreq & Hdel).
    + intros i Hi. apply Hretry. lia.
    + exact Hfinal.
    + split; [exact Hout|]. split; [lia|]. rewrite Hdel. reflexivity.
Qed.

(** X26: [request] stops at the first attempt that is final: the first one
    that succeeds, or fails with an error that is not retryable, or is the
    last of the budget.  If every attempt before attempt [k] failed with a
    retryable error, the call makes exactly [k + 1] requests and [k]
    pauses, and ends as attempt [k] did: its data, or its error
    normalised. *)
Theorem request_stops_at_first_final_attempt :
  forall (maxRetries k : Z),
    0 <= k < maxRetries ->
    (forall i, 0 <= i < k ->
               exists e, transport i = inl e /\ _shouldRetry e = true) ->
    match transport k with
    | inr _ => True
    | inl e => _shouldRetry e = false \/ k = maxRetries - 1
    end ->
    let r := request transport maxRetries in
    fst r = match transport k with
            | inr d => Returned d
            | inl e => Threw (_normalizeError e)
            end
    /\ requests (snd r) = k + 1
    /\ Z.of_nat (List.length (delays (snd r))) = k.
Proof.
  intros maxRetries k Hk Hretry Hfinal r. subst r. unfold request.
  destruct (attempts_first_final maxRetries (Z.to_nat k)
              (Z.to_nat maxRetries) 0 None ltac:(lia)) as (Hout & Hreq & Hdel).
  - intros i Hi. split; [lia|]. apply Hretry. lia.
  - simpl. rewrite Z2Nat.id by lia. exact Hfinal.
  - simpl in Hout. rewrite Z2Nat.id in Hout by lia.
    split; [exact Hout|]. split; [lia|]. rewrite Hdel. lia.
Qed.

Lemma attempts_server_errors (maxRetries : Z) (remaining : nat) :
  forall (attempt : Z) (lastError : option error),
    0 <= attempt ->
    Z.of_nat remaining = maxRetries - attempt ->
    (0 < remaining)%nat ->
    (forall i, attempt <= i < maxRetries ->
               exists e, transport i = inl e /\ status_is e 429 = false
                         /\ status_ge e 500 = true) ->
    let r := attempts transport maxRetries remaining attempt lastError in
    delays (snd r)
    = map (fun i => Some (2 ^ (attempt + Z.of_nat i) * 1000))
          (seq 0 (remaining - 1))
    /\ slept (snd r) = (2 ^ (maxRetries - 1) - 2 ^ attempt) * 1000.
Proof.
  induction remaining as [|n IH];
    intros attempt lastError Hatt Hn Hpos Hall; [lia|].
  destruct (Hall attempt ltac:(lia)) as (e & He & H429 & H500).
  assert (_shouldRetry e = true) as Hre
      by (unfold _shouldRetry; rewrite H429, H500; reflexivity).
  assert (_getRetryDelay e attempt = Some (2 ^ attempt * 1000)) as Hdelay
      by (unfold _getRetryDelay; rewrite H429, H500; reflexivity).
  simpl. rewrite He, Hre.
  destruct (Z.eqb_spec attempt (maxRetries - 1)) as [Hlast|Hnot]; simpl.
  - assert (n = 0%nat) as -> by lia. simpl.
    split; [reflexivity|]. unfold slept. simpl. rewrite Hlast. lia.
  - destruct n as [|n']; [lia|].
    specialize (IH (attempt + 1) (Some e) ltac:(lia) ltac:(lia) ltac:(lia)).
    destruct (attempts transport maxRetries (S n') (attempt + 1) (Some e))
      as [out later].
    simpl in IH |- *. destruct IH as (Hdel & Hslept).
    { intros i Hi. apply Hall. lia. }
    rewrite Hdelay. split.
    + rewrite Z.add_0_r. f_equal.
      rewrite Nat.sub_0_r in Hdel. rewrite Hdel.
      rewrite <- seq_shift, map_map. apply map_ext. intros i.
      f_equal. f_equal. f_equal. lia.
    + unfold slept in *. simpl. rewrite Hslept.
      assert (0 <= 2 ^ attempt) by (apply Z.pow_nonneg; lia).
      replace (2 ^ (attempt + 1)) with (2 * 2 ^ attempt)
        by (rewrite Z.pow_add_r by lia; lia).
      lia.
Qed.

(** X27: against a server that answers every attempt with a 5xx status,
    [request] uses its whole budget: it makes [maxRetries] requests, pauses
    1 s, 2 s, 4 s, ... between them, doubling each time, for
    [2^(maxRetries-1) - 1] seconds in all, and throws the normalised error
    of the last attempt. *)
Theorem request_backoff_on_server_errors :
  forall maxRetries : Z,
    1 <= maxRetries ->
    (forall i, 0 <= i < maxRetries ->
               exists e r, transport i = inl e /\ e_response e = Some r
                           /\ 500 <= status r) ->
    let r := request transport maxRetries in
    requests (snd r) = maxRetries
    /\ delays (snd r)
       = map (fun i => Some (2 ^ Z.of_nat i * 1000))
             (seq 0 (Z.to_nat (maxRetries - 1)))
    /\ slept (snd r) = (2 ^ (maxRetries - 1) - 1) * 1000
    /\ exists e, transport (maxRetries - 1) = inl e
                 /\ fst r = Threw (_normalizeError e).
Proof.
  intros maxRetries Hn Hall r. subst r.
  assert (forall i, 0 <= i < maxRetries ->
                    exists e, transport i = inl e
                              /\ status_is e 429 = false
                              /\ status_ge e 500 = true) as Hall'.
  { intros i Hi. destruct (Hall i Hi) as (e & r & He & Hr & Hs).
    exists e. split; [exact He|].
    unfold status_is, status_ge, statusOf. rewrite Hr. simpl.
    split; [apply Z.eqb_neq; lia|apply Z.geb_le; lia]. }
  assert (forall e, transport (maxRetries - 1) = inl e ->
                    _shouldRetry e = false \/ maxRetries - 1 = maxRetries - 1)
    as Hfinal by (intros; right; reflexivity).
  destruct (attempts_first_final maxRetries (Z.to_nat (maxRetries - 1))
              (Z.to_nat maxRetries) 0 None ltac:(lia)) as (Hout & Hreq & _).
  { intros i Hi. split; [lia|].
    destruct (Hall' i ltac:(lia)) as (e & He & H429 & H500).
    exists e. split; [exact He|].
    unfold _shouldRetry. rewrite H429, H500. reflexivity. }
  { simpl. rewrite Z2Nat.id by lia.
    destruct (transport (maxRetries - 1)); [right; reflexivity|exact I]. }
  simpl in Hout. rewrite Z2Nat.id in Hout by lia.
  destruct (attempts_server_errors maxRetries (Z.to_nat maxRetries) 0 None
              ltac:(lia) ltac:(lia) ltac:(lia) Hall') as (Hdel & Hslept).
  unfold request.
  split; [lia|]. split.
  - rewrite Hdel. replace (Z.to_nat maxRetries - 1)%nat
      with (Z.to_nat (maxRetries - 1)) by lia.
    reflexivity.
  - split; [rewrite Hslept; simpl; lia|].
    destruct (Hall (maxRetries - 1) ltac:(lia)) as (e & r & He & _).
    exists e. split; [exact He|]. rewrite Hout, He. reflexivity.
Qed.

End RetryLaws.

Section AlertLaws.

Import BaseClient NWS.

Context {P A V : Type}.
Variable pick : P -> A.
Variable ofAlerts : list A -> V.

Lemma getAlerts_failed (transport : Z -> error + body P) :
  (forall d, fst (request transport 3) <> Returned d) ->
  getAlerts pick transport = [].
Proof.
  intros Hfail. unfold getAlerts.
  destruct (fst (request transport 3)) as [d| |]; try reflexivity.
  exfalso. exact (Hfail d eq_refl).
Qed.

Lemma get_within_five_minutes (c : Cache.t V) (t ms : Z) (key : string)
      (v : V) :
  0 <= ms <= 300000 ->
  fst (Cache.get (t + ms) key (Cache.set t key v (Some 300000) c)) = Some v.
Proof.
  intros Hms. apply get_visible_iff. eexists. split.
  - unfold Cache.set. simpl. apply map_get_map_set.
  - simpl. split; [reflexivity|lia].
Qed.

(** X28: an outage of the alert service is remembered as "no alerts".  When
    the lookup is enabled, nothing is cached for the point and the HTTP
    request fails, the lookup returns the empty array and stores it: for
    the next five minutes every lookup for that point returns the empty
    array without asking the service, whatever the service would answer
    by then. *)
Theorem getNWSAlerts_remembers_outage :
  forall (nws : service P) (point : string) (w : alertWorld V)
         (elapsed : Z) (transport : Z -> error + body P),
    fst (Cache.get (w_clock w) (alertsKey point) (w_cache w)) = None ->
    nws point = (elapsed, transport) ->
    (forall d, fst (request transport 3) <> Returned d) ->
    let r1 := getNWSAlerts pick ofAlerts true nws point w in
    fst r1 = ofAlerts []
    /\ w_asked (snd r1) = w_asked w ++ [point]
    /\ forall (nws' : service P) (ms : Z),
        0 <= ms <= 300000 ->
        let r2 := getNWSAlerts pick ofAlerts true nws' point
                               (later ms (snd r1)) in
        fst r2 = ofAlerts [] /\ w_asked (snd r2) = w_asked (snd r1).
Proof.
  intros nws point w elapsed transport Hmiss Hnws Hfail r1.
  assert (r1 = (ofAlerts [],
                {| w_cache := Cache.set (w_clock w + elapsed) (alertsKey point)
                                      (ofAlerts []) (Some 300000)
                                      (snd (Cache.get (w_clock w)
                                                      (alertsKey point)
                                                      (w_cache w)));
                   w_clock := w_clock w + elapsed;
                   w_asked := w_asked w ++ [point] |})) as ->.
  { subst r1. unfold getNWSAlerts. cbn [negb].
    destruct (Cache.get (w_clock w) (alertsKey point) (w_cache w))
      as [cached c1].
    simpl in Hmiss. subst cached. rewrite Hnws.
    rewrite (getAlerts_failed transport Hfail). reflexivity. }
  cbn [fst snd w_asked]. split; [reflexivity|]. split; [reflexivity|].
  intros nws' ms Hms. cbv zeta.
  unfold getNWSAlerts, later. cbn [negb w_cache w_clock w_asked].
  pose proof (get_within_five_minutes
                (snd (Cache.get (w_clock w) (alertsKey point) (w_cache w)))
                (w_clock w + elapsed) ms (alertsKey point) (ofAlerts []) Hms)
    as Hhit.
  destruct (Cache.get (w_clock w + elapsed + ms) (alertsKey point) _)
    as [cached c2].
  simpl in Hhit. subst cached. split; reflexivity.
Qed.

End AlertLaws.

Section StationIds.

Import Validators.

Ltac by_cases_on_char a :=
  destruct a as [[] [] [] [] [] [] [] []]; vm_compute; congruence.

Lemma upper_ascii_of_alnum (a : Ascii.ascii) :
  is_alnum a = true ->
  is_upper (upper_ascii a) || is_digit (upper_ascii a) = true.
Proof. by_cases_on_char a. Qed.

Lemma upper_ascii_never_lower (a : Ascii.ascii) :
  is_lower (upper_ascii a) = false.
Proof. by_cases_on_char a. Qed.

Lemma upper_ascii_fixes_canonical (a : Ascii.ascii) :
  is_upper a || is_digit a = true -> upper_ascii a = a.
Proof. by_cases_on_char a. Qed.

Lemma canonical_char_not_space (a : Ascii.ascii) :
  is_upper a || is_digit a = true -> is_space a = false.
Proof. by_cases_on_char a. Qed.

Lemma canonical_char_alnum (a : Ascii.ascii) :
  is_upper a || is_digit a = true -> is_alnum a = true.
Proof. by_cases_on_char a. Qed.

Lemma alnum_not_lower_canonical (a : Ascii.ascii) :
  is_alnum a = true -> is_lower a = false ->
  is_upper a || is_digit a = true.
Proof. by_cases_on_char a. Qed.

Lemma all_chars_impl (p q : Ascii.ascii -> bool) (s : string) :
  (forall a, p a = true -> q a = true) ->
  all_chars p s = true -> all_chars q s = true.
Proof.
  intros Hpq. induction s as [|a s IH]; simpl; [reflexivity|].
  intros H. apply andb_true_iff in H. destruct H as [Ha Hs].
  rewrite (Hpq a Ha), (IH Hs). reflexivity.
Qed.

Lemma all_chars_and (p q : Ascii.ascii -> bool) (s : string) :
  all_chars p s = true -> all_chars q s = true ->
  all_chars (fun a => p a && q a) s = true.
Proof.
  induction s as [|a s IH]; simpl; [reflexivity|].
  intros Hp Hq. apply andb_true_iff in Hp, Hq.
  destruct Hp as [-> Hp], Hq as [-> Hq]. simpl. exact (IH Hp Hq).
Qed.

Lemma toUpperCase_length (s : string) :
  String.length (toUpperCase s) = String.length s.
Proof. induction s as [|a s IH]; simpl; congruence. Qed.

Lemma toUpperCase_alnum (s : string) :
  all_chars is_alnum s = true ->
  all_chars (fun a => is_upper a || is_digit a) (toUpperCase s) = true.
Proof.
  induction s as [|a s IH]; simpl; [reflexivity|].
  intros H. apply andb_true_iff in H. destruct H as [Ha Hs].
  rewrite (upper_ascii_of_alnum a Ha), (IH Hs). reflexivity.
Qed.

Lemma toUpperCase_no_lower (s : string) :
  all_chars (fun a => negb (is_lower a)) (toUpperCase s) = true.
Proof.
  induction s as [|a s IH]; simpl; [reflexivity|].
  rewrite upper_ascii_never_lower, IH. reflexivity.
Qed.

Lemma toUpperCase_fixes_canonical (s : string) :
  all_chars (fun a => is_upper a || is_digit a) s = true ->
  toUpperCase s = s.
Proof.
  induction s as [|a s IH]; simpl; [reflexivity|].
  intros H. apply andb_true_iff in H. destruct H as [Ha Hs].
  rewrite (upper_ascii_fixes_canonical a Ha), (IH Hs). reflexivity.
Qed.

Lemma trimStart_all_chars (p : Ascii.ascii -> bool) (s : string) :
  all_chars p s = true -> all_chars p (trimStart s) = true.
Proof.
  induction s as [|a s IH]; simpl; [reflexivity|].
  intros H. destruct (is_space a); [|exact H].
  apply andb_true_iff in H. exact (IH (proj2 H)).
Qed.

Lemma trimEnd_all_chars (p : Ascii.ascii -> bool) (s : string) :
  all_chars p s = true -> all_chars p (trimEnd s) = true.
Proof.
  induction s as [|a s IH]; simpl; [reflexivity|].
  intros H. apply andb_true_iff in H. destruct H as [Ha Hs].
  specialize (IH Hs).
  destruct (trimEnd s) as [|b rest].
  - destruct (is_space a); simpl; [reflexivity|].
    rewrite Ha. reflexivity.
  - simpl in IH |- *. rewrite Ha. exact IH.
Qed.

Lemma trim_without_space (s : string) :
  all_chars (fun a => negb (is_space a)) s = true -> trim s = s.
Proof.
  unfold trim. intros H.
  assert (trimStart s = s) as ->.
  { destruct s as [|a s]; simpl in *; [reflexivity|].
    apply andb_true_iff in H. destruct H as [Ha _].
    apply negb_true_iff in Ha. rewrite Ha. reflexivity. }
  induction s as [|a s IH]; simpl; [reflexivity|].
  simpl in H. apply andb_true_iff in H. destruct H as [Ha Hs].
  apply negb_true_iff in Ha. rewrite (IH Hs), Ha.
  destruct s; reflexivity.
Qed.

Lemma canonical_parts (s : string) :
  canonical s = true <->
  (4 <= String.length s <= 6)%nat
  /\ all_chars (fun a => is_upper a || is_digit a) s = true.
Proof.
  unfold canonical. rewrite !andb_true_iff, !Nat.leb_le. tauto.
Qed.

Lemma station_pattern_parts (s : string) :
  station_pattern s = true <->
  (4 <= String.length s <= 6)%nat /\ all_chars is_alnum s = true.
Proof.
  unfold station_pattern. rewrite !andb_true_iff, !Nat.leb_le. tauto.
Qed.

Lemma strip_raws_cases (s : string) :
  strip_raws s = s \/ s = ("RAWS:" ++ strip_raws s)%string.
Proof.
  unfold strip_raws.
  destruct s as [|a [|b [|c [|d [|e rest]]]]]; auto.
  destruct (String.eqb_spec
              (String a (String b (String c (String d (String e EmptyString)))))
              "RAWS:") as [E|E]; [|auto].
  right. injection E as -> -> -> -> ->. reflexivity.
Qed.

Lemma strip_raws_all_chars (p : Ascii.ascii -> bool) (s : string) :
  all_chars p s = true -> all_chars p (strip_raws s) = true.
Proof.
  intros H. destruct (strip_raws_cases s) as [->|E]; [exact H|].
  rewrite E in H. simpl in H.
  repeat (apply andb_true_iff in H; destruct H as [_ H]). exact H.
Qed.

Lemma strip_raws_alnum (s : string) :
  all_chars is_alnum s = true -> strip_raws s = s.
Proof.
  intros H. destruct (strip_raws_cases s) as [E|E]; [exact E|].
  rewrite E in H. simpl in H.
  repeat (apply andb_true_iff in H; destruct H as [? H]).
  discriminate.
Qed.

Lemma canonical_accepted (c : string) :
  canonical c = true ->
  isValidStationId c = true /\ sanitizeStationId c = c.
Proof.
  intros Hc. apply canonical_parts in Hc. destruct Hc as [Hlen Hall].
  assert (all_chars is_alnum c = true) as Halnum
      by (apply (all_chars_impl _ _ c canonical_char_alnum Hall)).
  assert (strip_raws c = c) as Hstrip by (apply strip_raws_alnum, Halnum).
  unfold isValidStationId, sanitizeStationId.
  destruct c as [|a c']; [simpl in Hlen; lia|].
  rewrite Hstrip. split.
  - apply station_pattern_parts. split; assumption.
  - rewrite (toUpperCase_fixes_canonical _ Hall).
    apply trim_without_space.
    apply (all_chars_impl _ _ _ (fun a H =>
             eq_trans (f_equal negb (canonical_char_not_space a H)) eq_refl)
             Hall).
Qed.

(** X29: a station identifier that [isValidStationId] accepts is brought by
    [sanitizeStationId] to its canonical form: four to six upper-case
    letters or digits without the prefix.  The canonical form is accepted
    in turn and sanitising it again leaves it unchanged. *)
Theorem sanitizeStationId_of_valid :
  forall stationId : string,
    isValidStationId stationId = true ->
    canonical (sanitizeStationId stationId) = true
    /\ isValidStationId (sanitizeStationId stationId) = true
    /\ sanitizeStationId (sanitizeStationId stationId)
       = sanitizeStationId stationId
    /\ sanitizeStationId stationId = toUpperCase (strip_raws stationId).
Proof.
  intros s Hvalid.
  assert (station_pattern (strip_raws s) = true) as Hpat
      by (destruct s; [discriminate|exact Hvalid]).
  apply station_pattern_parts in Hpat. destruct Hpat as [Hlen Halnum].
  assert (canonical (toUpperCase (strip_raws s)) = true) as Hcanon.
  { apply canonical_parts. rewrite toUpperCase_length.
    split; [exact Hlen|]. apply toUpperCase_alnum, Halnum. }
  assert (sanitizeStationId s = toUpperCase (strip_raws s)) as Hsan.
  { unfold sanitizeStationId. destruct s as [|a s']; [discriminate|].
    apply trim_without_space.
    apply canonical_parts in Hcanon.
    apply (all_chars_impl _ _ _ (fun a H =>
             eq_trans (f_equal negb (canonical_char_not_space a H)) eq_refl)
             (proj2 Hcanon)). }
  rewrite Hsan. destruct (canonical_accepted _ Hcanon) as [Hv Hs].
  split; [exact Hcanon|]. split; [exact Hv|]. split; [exact Hs|reflexivity].
Qed.

(** X30: the tools sanitise first and validate afterwards.  What passes
    that check is a canonical identifier, or a canonical identifier still
    carrying the prefix [RAWS:]: only an upper-case prefix at the very
    start is removed before the text is upper-cased and trimmed. *)
Theorem sanitized_station_id_accepted_iff :
  forall stationId : string,
    isValidStationId (sanitizeStationId stationId) = true <->
    canonical (sanitizeStationId stationId) = true
    \/ exists w, sanitizeStationId stationId = ("RAWS:" ++ w)%string
                 /\ canonical w = true.
Proof.
  intros s. set (x := sanitizeStationId s).
  assert (all_chars (fun a => negb (is_lower a)) x = true) as Hnolower.
  { subst x. unfold sanitizeStationId.
    destruct s as [|a s']; [reflexivity|].
    unfold trim. apply trimEnd_all_chars, trimStart_all_chars.
    apply toUpperCase_no_lower. }
  split.
  - intros Hvalid.
    assert (station_pattern (strip_raws x) = true) as Hpat
        by (destruct x; [discriminate|exact Hvalid]).
    apply station_pattern_parts in Hpat. destruct Hpat as [Hlen Halnum].
    assert (canonical (strip_raws x) = true) as Hcanon.
    { apply canonical_parts. split; [exact Hlen|].
      pose proof (strip_raws_all_chars _ _ Hnolower) as Hnl.
      pose proof (all_chars_and _ _ _ Halnum Hnl) as Hboth.
      apply (all_chars_impl _ _ _ (fun a H =>
               alnum_not_lower_canonical a
                 (proj1 (proj1 (andb_true_iff _ _) H))
                 (proj1 (negb_true_iff _)
                        (proj2 (proj1 (andb_true_iff _ _) H))))
               Hboth). }
    destruct (strip_raws_cases x) as [E|E].
    + left. rewrite <- E. exact Hcanon.
    + right. exists (strip_raws x). split; [exact E|exact Hcanon].
  - intros [Hcanon|(w & E & Hcanon)].
    + exact (proj1 (canonical_accepted x Hcanon)).
    + rewrite E. change (station_pattern w = true).
      apply canonical_parts in Hcanon. apply station_pattern_parts.
      split; [exact (proj1 Hcanon)|].
      apply (all_chars_impl _ _ w canonical_char_alnum (proj2 Hcanon)).
Qed.

End StationIds.

Lemma assessFireWeatherSeverity_invariants_witness :
  severity (assessFireWeatherSeverity Inputs.extreme_afternoon) = Extreme
  /\ (3 <= List.length
             (factors (assessFireWeatherSeverity Inputs.extreme_afternoon)))%nat.
Proof.
  assert (severity (assessFireWeatherSeverity Inputs.extreme_afternoon)
          = Extreme) as Hs by reflexivity.
  split; [exact Hs|].
  exact (proj2 (proj2 (proj2 (proj2 (proj2
           (assessFireWeatherSeverity_invariants Inputs.extreme_afternoon)))))
           Hs).
Defined.

Lemma request_bounded_witness :
  1 <= BaseClient.requests
         (snd (BaseClient.request Inputs.flaky_transport 3)) <= 3.
Proof.
  pose proof (request_bounded Inputs.flaky_transport 3) as H.
  cbv zeta in H. destruct H as (Hmax & _ & Hpos).
  split; [exact (proj1 (Hpos ltac:(lia)))|exact Hmax].
Defined.

Lemma request_stops_at_first_final_attempt_witness :
  fst (BaseClient.request Inputs.flaky_transport 3) = BaseClient.Returned 7
  /\ BaseClient.requests
       (snd (BaseClient.request Inputs.flaky_transport 3)) = 3.
Proof.
  assert (forall i, 0 <= i < 2 ->
                    exists e, Inputs.flaky_transport i = inl e
                              /\ BaseClient._shouldRetry e = true) as Hretry.
  { intros i Hi. assert (i = 0 \/ i = 1) as [->| ->] by lia;
      eexists; split; reflexivity. }
  pose proof (request_stops_at_first_final_attempt
                Inputs.flaky_transport 3 2 ltac:(lia) Hretry I) as H.
  cbv zeta in H. destruct H as (Hout & Hreq & _).
  split; [exact Hout|exact Hreq].
Defined.

Lemma request_backoff_on_server_errors_witness :
  BaseClient.delays
    (snd (BaseClient.request
            (fun _ : Z => @inl BaseClient.error Z Inputs.unavailable) 3))
  = [Some 1000; Some 2000]
  /\ BaseClient.slept
       (snd (BaseClient.request
               (fun _ : Z => @inl BaseClient.error Z Inputs.unavailable) 3))
     = 3000.
Proof.
  assert (forall i : Z, 0 <= i < 3 ->
            exists e r,
              (fun _ : Z => @inl BaseClient.error Z Inputs.unavailable) i
              = inl e
              /\ BaseClient.e_response e = Some r
              /\ 500 <= BaseClient.status r) as Hall.
  { intros i _. exists Inputs.unavailable. eexists.
    split; [reflexivity|]. split; [reflexivity|]. simpl. lia. }
  pose proof (request_backoff_on_server_errors
                (fun _ : Z => @inl BaseClient.error Z Inputs.unavailable) 3
                ltac:(lia) Hall) as H.
  cbv zeta in H. destruct H as (_ & Hdel & Hslept & _).
  split; [exact Hdel|exact Hslept].
Defined.

Lemma getNWSAlerts_remembers_outage_witness :
  fst (NWS.getNWSAlerts
         (fun p : string => p) (fun l : list string => l) true
         Inputs.nws_up "39.1,-105.2"
         (NWS.later 60000
            (snd (NWS.getNWSAlerts
                    (fun p : string => p) (fun l : list string => l) true
                    Inputs.nws_down "39.1,-105.2"
                    Inputs.no_alert_cached))))
  = [].
Proof.
  pose proof (getNWSAlerts_remembers_outage
                (fun p : string => p) (fun l : list string => l)
                Inputs.nws_down "39.1,-105.2" Inputs.no_alert_cached
                40 (fun _ => inl Inputs.unavailable)
                eq_refl eq_refl
                ltac:(intros d; vm_compute; discriminate)) as H.
  cbv zeta in H. destruct H as (_ & _ & Hnext).
  exact (proj1 (Hnext Inputs.nws_up 60000 ltac:(lia))).
Defined.

Lemma sanitizeStationId_of_valid_witness :
  Validators.isValidStationId "RAWS:c1234" = true
  /\ Validators.sanitizeStationId "RAWS:c1234" = "C1234"%string
  /\ Validators.canonical (Validators.sanitizeStationId "RAWS:c1234") = true.
Proof.
  split; [reflexivity|]. split; [reflexivity|].
  exact (proj1 (sanitizeStationId_of_valid "RAWS:c1234" eq_refl)).
Defined.

Lemma sanitized_station_id_accepted_iff_witness :
  Validators.sanitizeStationId " raws:kslc " = "RAWS:KSLC"%string
  /\ Validators.isValidStationId
       (Validators.sanitizeStationId " raws:kslc ") = true.
Proof.
  split; [reflexivity|].
  apply (proj2 (sanitized_station_id_accepted_iff " raws:kslc ")).
  right. exists "KSLC"%string. split; reflexivity.
Defined.
